(** * SaveMedia bot (bot.py): request ledger, link classification and
      download orchestration

    A shallow embedding of [bot.py].  Python [str] values are lists of
    Unicode code points; the request store is a finite map; the handlers run
    in a small exception-and-state monad over a world made of the request
    store, the scratch file system and the log of external calls.  What the
    collaborators (the bot transport, the extraction engine, the operating
    system) answer at each call site of one handler invocation is given by a
    scenario record.

    Exceptions are the instances of Python's [Exception]; the system-exiting
    [BaseException]s (KeyboardInterrupt, SystemExit) are outside the model. *)

From Stdlib Require Import ZArith QArith Qround Ascii String List DecimalString.
From stdpp Require Import gmap list.

Close Scope Q_scope.
Open Scope list_scope.

(** ** Python strings *)

Definition char := N.
Definition str := list char.

(** An ASCII literal as a [str]. *)
Fixpoint cp (s : string) : str :=
  match s with
  | EmptyString => []
  | String a r => N_of_ascii a :: cp r
  end.

(** [str.isspace] on one code point, the class of the regex [\s] and of
    [str.strip()] (CPython's _PyUnicode_IsWhitespace). *)
Definition isspace (c : char) : bool :=
  (((0x09 <=? c) && (c <=? 0x0D)) || ((0x1C <=? c) && (c <=? 0x20))
   || (c =? 0x85) || (c =? 0xA0) || (c =? 0x1680)
   || ((0x2000 <=? c) && (c <=? 0x200A))
   || (c =? 0x2028) || (c =? 0x2029) || (c =? 0x202F) || (c =? 0x205F)
   || (c =? 0x3000))%N.

(** The Unicode tables of the Python runtime that [bot.py] relies on and
    does not define: [str.isalnum] on a code point and [str.lower]. *)
Class Unicode := {
  isalnum : char -> bool;
  str_lower : str -> str
}.

(** The tables restricted to ASCII text. *)
Definition ascii_isalnum (c : char) : bool :=
  (((0x30 <=? c) && (c <=? 0x39)) || ((0x41 <=? c) && (c <=? 0x5A))
   || ((0x61 <=? c) && (c <=? 0x7A)))%N.

Definition ascii_lower_char (c : char) : char :=
  if ((0x41 <=? c) && (c <=? 0x5A))%N then (c + 32)%N else c.

Definition ascii_tables : Unicode :=
  {| isalnum := ascii_isalnum; str_lower := map ascii_lower_char |}.

Fixpoint take_while (p : char -> bool) (s : str) : str :=
  match s with
  | [] => []
  | c :: r => if p c then c :: take_while p r else []
  end.

Fixpoint drop_while (p : char -> bool) (s : str) : str :=
  match s with
  | [] => []
  | c :: r => if p c then drop_while p r else s
  end.

(** [s.startswith(p)] *)
Fixpoint startswith (p s : str) : bool :=
  match p, s with
  | [], _ => true
  | _ :: _, [] => false
  | a :: p', b :: s' => (a =? b)%N && startswith p' s'
  end.

(** [sub in s] *)
Fixpoint contains (sub s : str) : bool :=
  startswith sub s ||
  match s with
  | [] => false
  | _ :: r => contains sub r
  end.

(** [s.strip()] *)
Definition strip (s : str) : str :=
  rev (drop_while isspace (rev (drop_while isspace s))).

(** First occurrence of [sep]: the text before it and the text after it. *)
Fixpoint partition_at (sep : char) (s : str) : option (str * str) :=
  match s with
  | [] => None
  | c :: r =>
      if (c =? sep)%N then Some ([], r)
      else match partition_at sep r with
           | Some (a, b) => Some (c :: a, b)
           | None => None
           end
  end.

(** [s.split(sep, maxsplit)] for a one-character separator. *)
Fixpoint split (sep : char) (maxsplit : nat) (s : str) : list str :=
  match maxsplit with
  | O => [s]
  | S k =>
      match partition_at sep s with
      | None => [s]
      | Some (a, b) => a :: split sep k b
      end
  end.

(** [str(n)] for an integer. *)
Definition str_of_Z (n : Z) : str := cp (NilZero.string_of_int (Z.to_int n)).

(** ** Regular expressions of the module *)

(** [URL_RE = https?://[^\s]+] anchored at the head of [s]. *)
Definition URL_RE_scheme (scheme s : str) : option str :=
  if startswith scheme s then
    match take_while (fun c => negb (isspace c)) (drop (length scheme) s) with
    | [] => None
    | body => Some (scheme ++ body)
    end
  else None.

Definition URL_RE_match (s : str) : option str :=
  match URL_RE_scheme (cp "https://") s with
  | Some u => Some u
  | None => URL_RE_scheme (cp "http://") s
  end.

(** [URL_RE.search(s)]: the leftmost match. *)
Fixpoint URL_RE_search (s : str) : option str :=
  match URL_RE_match s with
  | Some u => Some u
  | None =>
      match s with
      | [] => None
      | _ :: r => URL_RE_search r
      end
  end.

(** bot.py 33-37 *)
Definition extract_url (text : option str) : option str :=
  match text with
  | None | Some [] => None
  | Some t => URL_RE_search t
  end.

Section Text.
Context `{Unicode}.

(** The regex class [\w]. *)
Definition is_word (c : char) : bool := isalnum c || (c =? 0x5F)%N.

(** [#\w+] anchored at the head of [s]. *)
Definition HASHTAG_RE_match (s : str) : option str :=
  match s with
  | [] => None
  | c :: r =>
      if (c =? 0x23)%N then
        match take_while is_word r with
        | [] => None
        | w => Some (c :: w)
        end
      else None
  end.

(** [re.findall(r"(#\w+)", s)]: the matches from left to right, not
    overlapping; [skip] code points of [s] still belong to the last match. *)
Fixpoint findall_from (skip : nat) (s : str) : list str :=
  match s with
  | [] => []
  | _ :: r =>
      match skip with
      | S k => findall_from k r
      | O =>
          match HASHTAG_RE_match s with
          | Some t => t :: findall_from (length t - 1) r
          | None => findall_from 0 r
          end
      end
  end.

Definition findall_hashtags (s : str) : list str := findall_from 0 s.

(** The loop of bot.py 120-124 on the tags still to visit. *)
Fixpoint dedup_loop (tags : list str) (seen : gset str) (out : list str)
  : list str :=
  match tags with
  | [] => out
  | t :: ts =>
      let low := str_lower t in
      if decide (low ∈ seen) then dedup_loop ts seen out
      else dedup_loop ts ({[low]} ∪ seen) (out ++ [t])
  end.

(** bot.py 116-125 *)
Definition hashtags_from_text (text : str) : list str :=
  match text with
  | [] => []
  | _ => dedup_loop (findall_hashtags text) ∅ []
  end.

(** bot.py 179-181: the snippet shown for a caption. *)
Definition caption_snippet (caption : str) : str :=
  let snippet := strip caption in
  if (800 <? length snippet)%nat then take 800 snippet ++ cp "..."
  else snippet.

End Text.

(** ** Paths and the scratch file system *)

(** A path as its directory and its final component. *)
Record Path := { parent : str; name : str }.

#[export] Instance Path_eq_dec : EqDecision Path.
Proof. solve_decision. Defined.

Definition path_str (p : Path) : str := parent p ++ cp "/" ++ name p.

(** [s.rfind(c)] for a one-character [c]. *)
Fixpoint rfind (c : char) (s : str) : option nat :=
  match s with
  | [] => None
  | x :: r =>
      match rfind c r with
      | Some i => Some (S i)
      | None => if (x =? c)%N then Some 0%nat else None
      end
  end.

(** [PurePath.suffix]: the final component from its last dot on, when
    that dot is neither its first nor its last character (pathlib up to
    Python 3.13). *)
Definition suffix (p : Path) : str :=
  match rfind 0x2E%N (name p) with
  | Some i =>
      if (0 <? i)%nat && (i <? length (name p) - 1)%nat
      then drop i (name p) else []
  | None => []
  end.

Record File := { f_path : Path; st_size : Z; st_mtime : Z }.

(** [sorted(files, key=lambda p: p.stat().st_mtime, reverse=True)]: a
    stable sort, newest first. *)
Fixpoint insert_newest (f : File) (l : list File) : list File :=
  match l with
  | [] => [f]
  | g :: r =>
      if (st_mtime g <=? st_mtime f)%Z then f :: l
      else g :: insert_newest f r
  end.

Definition sorted_newest (l : list File) : list File :=
  foldr insert_newest [] l.

(** ** Data of the handlers *)

(** What a dictionary holds under a key whose value is a string: no such
    key, the value None, or a string. *)
Inductive Entry :=
| Missing
| Null
| Text (s : str).

(** [d.get(key)] *)
Definition dict_get (v : Entry) : option str :=
  match v with
  | Text s => Some s
  | Missing | Null => None
  end.

(** [d.get(key, default)]: the default stands in for a missing key only. *)
Definition dict_get_default (v : Entry) (d : str) : option str :=
  match v with
  | Missing => Some d
  | Null => None
  | Text s => Some s
  end.

(** The metadata dictionary of the extraction engine, at the keys
    [bot.py] reads.  The key "title" is read both with and without a
    default; the other keys only without.  A duration is a finite number of
    seconds. *)
Record Info := {
  title : Entry;
  description : option str;
  thumbnail : option str;
  duration : option Q
}.

(** An entry of [requests_store]: [{"url": ..., "type": ...}]. *)
Record Request := { req_url : str; req_type : str }.

Record Button := { label : str; callback_data : str }.

(** An inline keyboard: one button per [kb.add]. *)
Definition Markup := list Button.

(** The configuration read at start-up (bot.py 16-19). *)
Record Config := { MAX_FILESIZE_MB : Z }.

(** [int(os.getenv("MAX_FILESIZE_MB", "1900"))] *)
Definition load_config (env_max : option Z) : Config :=
  {| MAX_FILESIZE_MB := default 1900%Z env_max |}.

Inductive exn :=
| ValueError (msg : str)
| KeyError (msg : str)
| OSError (msg : str)
| Error (msg : str).

(** [str(e)] *)
Definition exn_str (e : exn) : str :=
  match e with
  | ValueError m | KeyError m | OSError m | Error m => m
  end.

(** The calls that leave the process: the bot transport, the extraction
    engine and the two directory operations. *)
Inductive Call :=
| answer_callback_query (id : str) (text : str)
| send_message (chat : Z) (text : str) (markdown : bool)
    (reply_markup : option Markup)
| send_photo (chat : Z) (photo : str) (caption : str) (markdown : bool)
    (reply_markup : option Markup)
| send_audio (chat : Z) (file : Path) (caption : option str)
| send_video (chat : Z) (file : Path) (caption : option str)
| send_document (chat : Z) (file_id : str) (caption : str)
| delete_message (chat : Z) (message_id : Z)
| ydl_probe (url : str)
| ydl_download (url : str) (outdir : str) (audio_only : bool)
| mkdtemp (prefix : str)
| rmtree (dir : str).

Record World := {
  requests_store : gmap str Request;
  dirs : gset str;
  files : list File;
  log : list Call
}.

Definition set_store (f : gmap str Request -> gmap str Request) (w : World) :=
  {| requests_store := f (requests_store w); dirs := dirs w;
     files := files w; log := log w |}.

Definition set_dirs (f : gset str -> gset str) (w : World) :=
  {| requests_store := requests_store w; dirs := f (dirs w);
     files := files w; log := log w |}.

Definition set_files (f : list File -> list File) (w : World) :=
  {| requests_store := requests_store w; dirs := dirs w;
     files := f (files w); log := log w |}.

Definition log_call (c : Call) (w : World) :=
  {| requests_store := requests_store w; dirs := dirs w;
     files := files w; log := log w ++ [c] |}.

(** ** The monad of the handlers *)

Inductive result (A : Type) :=
| Ok (a : A)
| Raise (e : exn).
Arguments Ok {A} a.
Arguments Raise {A} e.

Definition M (A : Type) : Type := World -> result A * World.

Definition ret {A} (a : A) : M A := fun w => (Ok a, w).

Definition raise {A} (e : exn) : M A := fun w => (Raise e, w).

Definition bind {A B} (m : M A) (k : A -> M B) : M B :=
  fun w =>
    match m w with
    | (Ok a, w1) => k a w1
    | (Raise e, w1) => (Raise e, w1)
    end.

Notation "x <~ c ;; k" := (bind c (fun x => k))
  (at level 100, c at next level, right associativity).
Notation "c ;;; k" := (bind c (fun _ => k))
  (at level 100, right associativity).

(** [try: body / except Exception as e: handler e] *)
Definition try_except {A} (body : M A) (handler : exn -> M A) : M A :=
  fun w =>
    match body w with
    | (Ok a, w1) => (Ok a, w1)
    | (Raise e, w1) => handler e w1
    end.

(** [try: body / finally: final] *)
Definition try_finally {A} (body : M A) (final : M unit) : M A :=
  fun w =>
    match body w with
    | (r, w1) =>
        match final w1 with
        | (Ok _, w2) => (r, w2)
        | (Raise e, w2) => (Raise e, w2)
        end
    end.

(** [try: body / except: pass] *)
Definition try_pass (body : M unit) : M unit :=
  try_except body (fun _ => ret tt).

(** An external call whose answer is [outcome]. *)
Definition external {A} (c : Call) (outcome : exn + A) : M A :=
  fun w =>
    match outcome with
    | inr a => (Ok a, log_call c w)
    | inl e => (Raise e, log_call c w)
    end.

Definition unit_outcome (o : option exn) : exn + unit :=
  match o with
  | None => inr tt
  | Some e => inl e
  end.

Definition get_world : M World := fun w => (Ok w, w).

Definition modify (f : World -> World) : M unit := fun w => (Ok tt, f w).

(** ** File system and directory operations *)

Definition lookup_file (p : Path) (w : World) : option File :=
  find (fun f => bool_decide (f_path f = p)) (files w).

Definition no_such_file (p : Path) : exn :=
  OSError (cp "[Errno 2] No such file or directory: '" ++ path_str p ++ cp "'").

(** [p.stat()] *)
Definition stat (p : Path) : M File :=
  fun w =>
    match lookup_file p w with
    | Some f => (Ok f, w)
    | None => (Raise (no_such_file p), w)
    end.

(** [p.exists()] *)
Definition path_exists (p : Path) : M bool :=
  fun w => (Ok (bool_decide (is_Some (lookup_file p w))), w).

(** [open(p, "rb")] *)
Definition open_rb (p : Path) : M unit := stat p ;;; ret tt.

(** [outdir.glob("*")] *)
Definition glob (outdir : str) : M (list File) :=
  fun w => (Ok (filter (fun f => parent (f_path f) = outdir) (files w)), w).

(** [p.with_suffix(sfx)] *)
Definition with_suffix (p : Path) (sfx : str) : M Path :=
  match name p with
  | [] => raise (ValueError (cp "PosixPath('" ++ parent p
                             ++ cp "') has an empty name"))
  | n =>
      ret {| parent := parent p;
             name := take (length n - length (suffix p)) n ++ sfx |}
  end.

(** [tempfile.mkdtemp(prefix=...)] *)
Definition tempfile_mkdtemp (outcome : exn + str) (prefix : str) : M str :=
  d <~ external (mkdtemp prefix) outcome ;;
  modify (set_dirs (fun ds => {[d]} ∪ ds)) ;;;
  ret d.

(** [shutil.rmtree(d)]: when it raises, the directory is still there. *)
Definition shutil_rmtree (outcome : option exn) (d : str) : M unit :=
  w <~ get_world ;;
  if decide (d ∈ dirs w) then
    external (rmtree d) (unit_outcome outcome) ;;;
    modify (set_dirs (fun ds => ds ∖ {[d]})) ;;;
    modify (set_files (filter (fun f => parent (f_path f) ≠ d)))
  else raise (OSError (cp "[Errno 2] No such file or directory: '" ++ d ++ cp "'")).

(** [del requests_store[uid]] *)
Definition del_request (uid : str) : M unit :=
  w <~ get_world ;;
  match requests_store w !! uid with
  | Some _ => modify (set_store (delete uid))
  | None => raise (KeyError uid)
  end.

(** [try: body / except KeyError: pass] *)
Definition try_pass_KeyError (body : M unit) : M unit :=
  try_except body
    (fun e => match e with KeyError _ => ret tt | _ => raise e end).

(** ** Size check (bot.py 127-132) *)

(** The integer nearest to [n] that a double-precision float holds: [n]
    itself when it has at most 53 bits, and otherwise [n] rounded to its 53
    leading bits, a tie going to the even significand. *)
Definition round53 (n : Z) : Z :=
  (let a := Z.abs n in
   let bits := Z.log2 a + 1 in
   if bits <=? 53 then n
   else
     let shift := bits - 53 in
     let q := Z.shiftr a shift in
     let r := a - Z.shiftl q shift in
     let half := Z.shiftl 1 (shift - 1) in
     let q' := if (half <? r) || ((r =? half) && Z.odd q) then q + 1 else q in
     Z.sgn n * Z.shiftl q' shift)%Z.

(** [path.stat().st_size / (1024*1024)]: the true division of two integers
    gives the double nearest to the quotient; the divisor being a power of
    two, that is the size rounded to a double, over 2^20 ([st_size] is a
    64-bit file offset, far from the overflow of a double). *)
Definition size_mb (f : File) : Q := round53 (st_size f) # (1024 * 1024).

(** [int(q)]: truncation towards zero. *)
Definition Q_int (q : Q) : Z :=
  if Qle_bool 0 q then Qfloor q else Qceiling q.

Definition file_too_big (cfg : Config) (path : Path) : M bool :=
  try_except
    (f <~ stat path ;;
     ret (negb (Qle_bool (size_mb f) (inject_Z (MAX_FILESIZE_MB cfg)))))
    (fun _ => ret true).

(** ** The download (bot.py 71-114) *)

(** What the engine returns from [extract_info(url, download=True)] and
    [prepare_filename]: the metadata, the expected output path and the
    files it wrote. *)
Record EngineOutput := {
  eo_info : Info;
  eo_filename : Path;
  eo_written : list File
}.

(** The answers of the collaborators at the call sites of one
    [cb_download] invocation (line numbers of bot.py). *)
Record DownloadScenario := {
  on_answer : option exn;            (* 243, 248, 253 *)
  on_notify : exn + Z;               (* 255: the message_id of the notice *)
  on_mkdtemp : exn + str;            (* 256 *)
  on_extract : exn + EngineOutput;   (* 105-107 *)
  on_send_too_large : option exn;    (* 261 *)
  on_send_media : option exn;        (* 268, 271 *)
  on_send_failed : option exn;       (* 273 *)
  on_delete : option exn;            (* 276 *)
  on_rmtree : option exn             (* 280 *)
}.

Definition download_with_yt (sc : DownloadScenario) (url outdir : str)
    (audio_only : bool) : M (Path * Info) :=
  out <~ external (ydl_download url outdir audio_only) (on_extract sc) ;;
  modify (set_files (fun fs => eo_written out ++ fs)) ;;;
  filepath <~ (if audio_only then with_suffix (eo_filename out) (cp ".mp3")
               else ret (eo_filename out)) ;;
  present <~ path_exists filepath ;;
  if present then ret (filepath, eo_info out)
  else
    found <~ glob outdir ;;
    match sorted_newest found with
    | f :: _ => ret (f_path f, eo_info out)
    | [] => ret (filepath, eo_info out)
    end.

(** ** Callback handler (bot.py 237-287) *)

Record CallbackQuery := { call_id : str; data : str; chat_id : Z }.

Definition invalid_request : str := cp "Invalid request.".
Definition request_expired : str := cp "Request expired. Send link again.".
Definition starting_download : str := cp "Starting download...".

Definition downloading_text (mode : str) : str :=
  [0x23F3%N] ++ cp " Downloading " ++ mode ++ cp " " ++ [0x2014%N]
  ++ cp " this can take some time.".

Definition too_large_text (mb : Z) : str :=
  [0x26A0%N; 0xFE0F%N] ++ cp " File too large (" ++ str_of_Z mb ++ cp " MB).".

Definition download_failed_text (e : exn) : str :=
  [0x274C%N] ++ cp " Download failed: " ++ exn_str e.

Definition audio_extensions : list str :=
  [cp ".mp3"; cp ".m4a"; cp ".opus"; cp ".ogg"].

Section Handlers.
Context `{Unicode}.
Variable cfg : Config.

(** bot.py 258-271: the body of the [try]. *)
Definition download_and_send (sc : DownloadScenario) (call : CallbackQuery)
    (url mode tmpdir : str) : M unit :=
  let audio_only := bool_decide (mode = cp "audio") in
  r <~ download_with_yt sc url tmpdir audio_only ;;
  let '(filepath, info) := r in
  big <~ file_too_big cfg filepath ;;
  if big then
    f <~ stat filepath ;;
    external (send_message (chat_id call)
                (too_large_text (Q_int (size_mb f))) false None)
             (unit_outcome (on_send_too_large sc))
  else
    let caption := dict_get_default (title info) (cp "File") in
    let ext := str_lower (suffix filepath) in
    if audio_only || bool_decide (ext ∈ audio_extensions) then
      open_rb filepath ;;;
      external (send_audio (chat_id call) filepath caption)
               (unit_outcome (on_send_media sc))
    else
      open_rb filepath ;;;
      external (send_video (chat_id call) filepath caption)
               (unit_outcome (on_send_media sc)).

(** bot.py 274-287: the [finally] block. *)
Definition cleanup (sc : DownloadScenario) (call : CallbackQuery)
    (notify : Z) (tmpdir uid : str) : M unit :=
  try_pass (external (delete_message (chat_id call) notify)
                     (unit_outcome (on_delete sc))) ;;;
  try_pass (shutil_rmtree (on_rmtree sc) tmpdir) ;;;
  try_pass_KeyError (del_request uid).

(** bot.py 240-253: payload parsing and ledger lookup.  [None]: the
    handler has returned. *)
Definition cb_download_lookup (sc : DownloadScenario) (call : CallbackQuery)
  : M (option (str * str * Request)) :=
  match split 0x7C%N 2 (data call) with
  | [_; uid; mode] =>
      w <~ get_world ;;
      match requests_store w !! uid with
      | None =>
          external (answer_callback_query (call_id call) request_expired)
                   (unit_outcome (on_answer sc)) ;;;
          ret None
      | Some req =>
          external (answer_callback_query (call_id call) starting_download)
                   (unit_outcome (on_answer sc)) ;;;
          ret (Some (uid, mode, req))
      end
  | _ =>
      external (answer_callback_query (call_id call) invalid_request)
               (unit_outcome (on_answer sc)) ;;;
      ret None
  end.

(** bot.py 255-287: the download of a resolved request. *)
Definition cb_download_run (sc : DownloadScenario) (call : CallbackQuery)
    (uid mode : str) (req : Request) : M unit :=
  notify <~ external (send_message (chat_id call) (downloading_text mode)
                        false None) (on_notify sc) ;;
  tmpdir <~ tempfile_mkdtemp (on_mkdtemp sc) (cp "savemedia_") ;;
  try_finally
    (try_except
       (download_and_send sc call (req_url req) mode tmpdir)
       (fun e =>
          external (send_message (chat_id call) (download_failed_text e)
                      false None)
                   (unit_outcome (on_send_failed sc))))
    (cleanup sc call notify tmpdir uid).

Definition cb_download (sc : DownloadScenario) (call : CallbackQuery)
  : M unit :=
  r <~ cb_download_lookup sc call ;;
  match r with
  | Some (uid, mode, req) => cb_download_run sc call uid mode req
  | None => ret tt
  end.

End Handlers.

(** ** Link handler (bot.py 61-69, 154-235) *)

Record Message := { m_chat : Z; m_text : option str }.

(** The answers of the collaborators at the call sites of one
    [handle_links] invocation. *)
Record LinkScenario := {
  on_fetching : exn + Z;             (* 163, 210: the message_id *)
  on_probe : exn + option Info;      (* 65-66 *)
  on_uuid4 : str;                    (* 189, 217: str(uuid.uuid4()) *)
  on_send_photo : option exn;        (* 198, 225 *)
  on_send_text : option exn;         (* 200, 227 *)
  on_send_again : option exn;        (* 203, 229 *)
  on_delete_fetching : option exn;   (* 204, 230 *)
  on_reply : option exn              (* 158, 235 *)
}.

(** bot.py 61-69 *)
Definition probe_info (sc : LinkScenario) (url : str) : M (option Info) :=
  try_except (external (ydl_probe url) (on_probe sc)) (fun _ => ret None).

Definition nl : str := [10%N].

(** The value of [a or b] for an optional string [a]. *)
Definition or_else (a : option str) (b : str) : str :=
  match a with
  | Some (c :: r) => c :: r
  | _ => b
  end.

(** [sep.join(l)] *)
Fixpoint join (sep : str) (l : list str) : str :=
  match l with
  | [] => []
  | [x] => x
  | x :: r => x ++ sep ++ join sep r
  end.

(** The rendering of an optional string in an f-string. *)
Definition fmt_opt (a : option str) : str := default (cp "None") a.

Definition valid_link_text : str := cp "Send a valid link.".
Definition unsupported_text : str :=
  cp "Unsupported link. Send Instagram or YouTube public link.".
Definition fetching_instagram : str :=
  [0x1F50E%N] ++ cp " Fetching Instagram info...".
Definition fetching_youtube : str :=
  [0x1F50E%N] ++ cp " Fetching YouTube info...".
Definition instagram_found : str := cp "Instagram post found.".

Definition download_button (lbl uid mode : str) : Button :=
  {| label := lbl;
     callback_data := cp "download|" ++ uid ++ cp "|" ++ mode |}.

Definition instagram_markup (uid : str) : Markup :=
  [download_button ([0x25B6%N; 0xFE0F%N] ++ cp " Download Video") uid (cp "video")].

Definition youtube_markup (uid : str) : Markup :=
  [download_button ([0x1F3A5%N] ++ cp " Download Video") uid (cp "video");
   download_button ([0x1F3A7%N] ++ cp " Download Audio") uid (cp "audio")].

(** [f"{int(duration//60)}m{int(duration%60)}s" if duration else ""], for a
    duration that is a finite number of seconds small enough for the floor
    division and the remainder of floats to be exact (any duration of a
    media file is). *)
Definition mins_text (d : option Q) : str :=
  match d with
  | Some q =>
      if Qeq_bool q 0 then []
      else
        let m := Qfloor (q / 60) in
        str_of_Z m ++ cp "m"
        ++ str_of_Z (Q_int (q - inject_Z (60 * m))) ++ cp "s"
  | None => []
  end.

(** bot.py 162 *)
Definition is_instagram (url : str) : bool :=
  contains (cp "instagram.com") url || contains (cp "instagr.am") url.

(** bot.py 209 *)
Definition is_youtube (url : str) : bool :=
  contains (cp "youtube.com") url || contains (cp "youtu.be") url.

Section Links.
Context `{Unicode}.

(** bot.py 166-186: the text of the Instagram card. *)
Definition instagram_caption (info : option Info) : str :=
  match info with
  | Some i => or_else (description i) (or_else (dict_get (title i)) [])
  | None => []
  end.

Definition instagram_text (info : option Info) : str :=
  let caption := instagram_caption info in
  let hashtags := hashtags_from_text caption in
  let t1 := match info with
            | Some i => cp "*" ++ or_else (dict_get (title i)) [] ++ cp "*" ++ nl
            | None => []
            end in
  let t2 := match caption with
            | [] => []
            | _ => nl ++ caption_snippet caption ++ nl
            end in
  let t3 := match hashtags with
            | [] => []
            | _ => nl ++ join (cp " ") hashtags
            end in
  match t1 ++ t2 ++ t3 with
  | [] => instagram_found
  | out_text => out_text
  end.

(** bot.py 212-216: the text of the YouTube card. *)
Definition youtube_text (info : option Info) : str :=
  let title_ := match info with
                | Some i => fmt_opt (dict_get (title i))
                | None => cp "YouTube Video"
                end in
  let mins := match info with
              | Some i => mins_text (duration i)
              | None => []
              end in
  cp "*" ++ title_ ++ cp "*" ++ nl ++ mins ++ nl ++ nl
  ++ cp "Choose download type:".

(** The thumbnail when it is a non-empty string. *)
Definition thumb_of (info : option Info) : option str :=
  match info with
  | Some i =>
      match thumbnail i with
      | Some (c :: r) => Some (c :: r)
      | _ => None
      end
  | None => None
  end.

(** bot.py 196-205, 223-231: send the card, then drop the notice. *)
Definition send_card (sc : LinkScenario) (m : Message) (msg : Z)
    (thumb : option str) (out_text : str) (kb : Markup) : M unit :=
  try_except
    (match thumb with
     | Some t =>
         external (send_photo (m_chat m) t out_text true (Some kb))
                  (unit_outcome (on_send_photo sc))
     | None =>
         external (send_message (m_chat m) out_text true (Some kb))
                  (unit_outcome (on_send_text sc))
     end)
    (fun _ =>
       external (send_message (m_chat m) out_text true (Some kb))
                (unit_outcome (on_send_again sc))) ;;;
  try_pass (external (delete_message (m_chat m) msg)
                     (unit_outcome (on_delete_fetching sc))).

(** bot.py 155-235 *)
Definition handle_links (sc : LinkScenario) (m : Message) : M unit :=
  match extract_url (m_text m) with
  | None | Some [] =>
      external (send_message (m_chat m) valid_link_text false None)
               (unit_outcome (on_reply sc))
  | Some url =>
      if is_instagram url then
        msg <~ external (send_message (m_chat m) fetching_instagram false None)
                        (on_fetching sc) ;;
        info <~ probe_info sc url ;;
        let uid := take 8 (on_uuid4 sc) in
        modify (set_store
                  <[uid := {| req_url := url; req_type := cp "instagram" |}]>) ;;;
        send_card sc m msg (thumb_of info) (instagram_text info)
                  (instagram_markup uid)
      else if is_youtube url then
        msg <~ external (send_message (m_chat m) fetching_youtube false None)
                        (on_fetching sc) ;;
        info <~ probe_info sc url ;;
        let uid := take 8 (on_uuid4 sc) in
        modify (set_store
                  <[uid := {| req_url := url; req_type := cp "youtube" |}]>) ;;;
        send_card sc m msg (thumb_of info) (youtube_text info)
                  (youtube_markup uid)
      else
        external (send_message (m_chat m) unsupported_text false None)
                 (unit_outcome (on_reply sc))
  end.

End Links.

(** ** Two callbacks in flight *)

(** A callback being handled: not started, past the ledger lookup with the
    request it resolved, or finished. *)
Inductive Thread :=
| Queued (sc : DownloadScenario) (call : CallbackQuery)
| Downloading (sc : DownloadScenario) (call : CallbackQuery)
    (uid mode : str) (req : Request)
| Finished.

Section Pool.
Context `{Unicode}.
Variable cfg : Config.

(** One turn of a handler thread: up to and including the lookup (bot.py
    240-253), or the download with its cleanup (255-287). *)
Definition thread_step (t : Thread) (w : World) : Thread * World :=
  match t with
  | Queued sc call =>
      match cb_download_lookup sc call w with
      | (Ok (Some (uid, mode, req)), w1) => (Downloading sc call uid mode req, w1)
      | (_, w1) => (Finished, w1)
      end
  | Downloading sc call uid mode req =>
      (Finished, snd (cb_download_run cfg sc call uid mode req w))
  | Finished => (Finished, w)
  end.

(** The threads of the pool take turns in the order of [schedule]. *)
Fixpoint run_schedule (schedule : list nat) (pool : list Thread) (w : World)
  : list Thread * World :=
  match schedule with
  | [] => (pool, w)
  | i :: rest =>
      match pool !! i with
      | Some t =>
          let '(t1, w1) := thread_step t w in
          run_schedule rest (<[i := t1]> pool) w1
      | None => run_schedule rest pool w
      end
  end.

End Pool.

(** ** Vocabulary of the properties and sample data *)

(** A relation between the world before and after a computation that every
    run of the computation respects. *)
Definition preserves (R : World → World → Prop) {A} (m : M A) : Prop :=
  ∀ w, R w (snd (m w)).

(** The request store and the set of directories are the same. *)
Definition same_ledger (w w' : World) : Prop :=
  requests_store w' = requests_store w ∧ dirs w' = dirs w.

(** The log has grown by calls that all satisfy [Q]. *)
Definition logged (Q : Call → Prop) (w w' : World) : Prop :=
  ∃ extra, log w' = log w ++ extra ∧ Forall Q extra.

(** A match of [#\w+]: the hash sign followed by one or more word
    characters. *)
Definition is_hashtag `{Unicode} (t : str) : Prop :=
  ∃ w, t = 0x23%N :: w ∧ w ≠ [] ∧ Forall (fun c => is_word c = true) w.

(** The number of occurrences of [c] in [s]. *)
Definition count_char (c : char) (s : list char) : nat :=
  length (filter (fun x => x = c) s).

(** The world once the notice is sent and the scratch directory is made
    (bot.py 255-256). *)
Definition run_start (call : CallbackQuery) (mode tmpdir : str) (w : World)
  : World :=
  set_dirs (fun ds => {[tmpdir]} ∪ ds)
    (log_call (mkdtemp (cp "savemedia_"))
       (log_call (send_message (chat_id call) (downloading_text mode) false None)
          w)).

Definition result_of (o : option exn) : result unit :=
  match o with
  | None => Ok tt
  | Some e => Raise e
  end.

Definition sample_uid : str := cp "ab12cd34".

Definition sample_call : CallbackQuery :=
  {| call_id := cp "cb1"; data := cp "download|ab12cd34|video"; chat_id := 42 |}.

Definition sample_request : Request :=
  {| req_url := cp "https://youtu.be/abc123"; req_type := cp "youtube" |}.

Definition sample_world : World :=
  {| requests_store := {[ sample_uid := sample_request ]};
     dirs := ∅; files := []; log := [] |}.

Definition sample_tmpdir : str := cp "/tmp/savemedia_k3".

Definition sample_info : Info :=
  {| title := Text (cp "clip"); description := None; thumbnail := None;
     duration := None |}.

Definition sample_file (nm : string) (size : Z) : File :=
  {| f_path := {| parent := sample_tmpdir; name := cp nm |};
     st_size := size; st_mtime := 100 |}.

(** The engine writes [written] and reports the output file [nm]. *)
Definition sample_scenario (nm : string) (written : list File)
    (rm : option exn) : DownloadScenario :=
  {| on_answer := None; on_notify := inr 7%Z; on_mkdtemp := inr sample_tmpdir;
     on_extract := inr {| eo_info := sample_info;
                          eo_filename := {| parent := sample_tmpdir;
                                            name := cp nm |};
                          eo_written := written |};
     on_send_too_large := None; on_send_media := None; on_send_failed := None;
     on_delete := None; on_rmtree := rm |}.

Definition sample_ok : DownloadScenario :=
  sample_scenario "clip.mp4" [sample_file "clip.mp4" 5000000] None.

Definition permission_denied : exn := OSError (cp "[Errno 13] Permission denied").

Definition sample_rmtree_fails : DownloadScenario :=
  sample_scenario "clip.mp4" [sample_file "clip.mp4" 5000000]
    (Some permission_denied).

Definition sample_notify_fails : DownloadScenario :=
  {| on_answer := None; on_notify := inl (Error (cp "Too Many Requests"));
     on_mkdtemp := inr sample_tmpdir; on_extract := inl (Error (cp "unused"));
     on_send_too_large := None; on_send_media := None; on_send_failed := None;
     on_delete := None; on_rmtree := None |}.

Definition sample_call2 : CallbackQuery :=
  {| call_id := cp "cb2"; data := cp "download|ab12cd34|video"; chat_id := 42 |}.

Definition sample_tmpdir2 : str := cp "/tmp/savemedia_q8".

Definition sample_ok2 : DownloadScenario :=
  {| on_answer := None; on_notify := inr 8%Z; on_mkdtemp := inr sample_tmpdir2;
     on_extract :=
       inr {| eo_info := sample_info;
              eo_filename := {| parent := sample_tmpdir2; name := cp "clip.mp4" |};
              eo_written :=
                [{| f_path := {| parent := sample_tmpdir2; name := cp "clip.mp4" |};
                    st_size := 5000000; st_mtime := 101 |}] |};
     on_send_too_large := None; on_send_media := None; on_send_failed := None;
     on_delete := None; on_rmtree := None |}.

(** The body of the handler never uses the document send. *)
Definition not_send_document (c : Call) : Prop :=
  match c with
  | send_document _ _ _ => False
  | _ => True
  end.

(** The world in which the download of a resolved callback starts: the
    answer "Starting download" is given, the notice sent and the scratch
    directory made (bot.py 253-256). *)
Definition download_start (call : CallbackQuery) (mode tmpdir : str)
    (w : World) : World :=
  run_start call mode tmpdir
    (log_call (answer_callback_query (call_id call) starting_download) w).

(** The calls that deliver media to the chat. *)
Definition is_media_send (c : Call) : bool :=
  match c with
  | send_photo _ _ _ _ _ | send_audio _ _ _ | send_video _ _ _
  | send_document _ _ _ => true
  | _ => false
  end.

(** What the [except] clause of the handler sends for the outcome of the
    guarded body. *)
Definition failure_report (call : CallbackQuery) (r : result unit) : list Call :=
  match r with
  | Ok _ => []
  | Raise e => [send_message (chat_id call) (download_failed_text e) false None]
  end.

Definition sample_too_big : DownloadScenario :=
  sample_scenario "clip.mp4" [sample_file "clip.mp4" 3221225472] None.

Definition sample_pdf : DownloadScenario :=
  sample_scenario "notes.pdf" [sample_file "notes.pdf" 5000000] None.

Definition sample_trace (delivery : list Call) : list Call :=
  [answer_callback_query (cp "cb1") starting_download;
   send_message 42 (downloading_text (cp "video")) false None;
   mkdtemp (cp "savemedia_");
   ydl_download (cp "https://youtu.be/abc123") sample_tmpdir false]
  ++ delivery ++ [delete_message 42 7; rmtree sample_tmpdir].

Definition sample_missing : DownloadScenario :=
  sample_scenario "clip.mp4" [] None.

(** A match of [https?://[^\s]+]. *)
Definition is_url (u : str) : Prop :=
  ∃ scheme body,
    (scheme = cp "https://" ∨ scheme = cp "http://") ∧
    u = scheme ++ body ∧ body ≠ [] ∧
    Forall (fun c => isspace c = false) body.

(** The calls and the outcome of [send_card] when there is no thumbnail:
    the card, the card again when the first send raises, and the deletion of
    the "Fetching" notice unless the second send raises too. *)
Definition card_calls (sc : LinkScenario) (card del : Call) : list Call :=
  match on_send_text sc, on_send_again sc with
  | None, _ => [card; del]
  | Some _, None => [card; card; del]
  | Some _, Some _ => [card; card]
  end.

Definition card_result (sc : LinkScenario) : result unit :=
  match on_send_text sc with
  | None => Ok tt
  | Some _ => result_of (on_send_again sc)
  end.

Definition sample_links : LinkScenario :=
  {| on_fetching := inr 3%Z; on_probe := inl (Error (cp "HTTP Error 403"));
     on_uuid4 := cp "ab12cd34-0000-4000-8000-000000000000";
     on_send_photo := None; on_send_text := None; on_send_again := None;
     on_delete_fetching := None; on_reply := None |}.

Definition sample_message : Message :=
  {| m_chat := 42; m_text := Some (cp "check this https://youtu.be/abc123") |}.

Definition empty_world : World :=
  {| requests_store := ∅; dirs := ∅; files := []; log := [] |}.

(** ** Language callback, handler filters and keyboards
       (bot.py 136-154, 237, 299-305) *)

Definition lang_english : str :=
  cp "Language set to English. Send an Instagram or YouTube link.".

Definition lang_hindi : str :=
  [0x92D; 0x93E; 0x937; 0x93E; 0x20; 0x939; 0x93F; 0x928; 0x94D; 0x926;
   0x940; 0x20; 0x938; 0x947; 0x91F; 0x20; 0x939; 0x941; 0x908; 0x964; 0x20;
   0x905; 0x92C; 0x20]%N
  ++ cp "Instagram" ++ [0x20; 0x92F; 0x93E; 0x20]%N ++ cp "YouTube"
  ++ [0x20; 0x932; 0x93F; 0x902; 0x915; 0x20; 0x92D; 0x947; 0x91C; 0x947;
      0x902; 0x964]%N.

(** The dictionary [texts] of bot.py 147-150. *)
Definition lang_texts : gmap str str :=
  <[cp "en" := lang_english]> (<[cp "hi" := lang_hindi]> ∅).

(** [l[i]] for a non-negative [i]; out of range it raises IndexError. *)
Definition index {A} (l : list A) (i : nat) : M A :=
  match l !! i with
  | Some x => ret x
  | None => raise (Error (cp "list index out of range"))
  end.

(** The answers of the transport at the two call sites of [cb_lang]. *)
Record LangScenario := {
  on_lang_answer : option exn;       (* 151 *)
  on_lang_send : option exn          (* 152 *)
}.

(** bot.py 145-152.  The answer of line 151 carries no text: it is logged
    with the empty text. *)
Definition cb_lang (sc : LangScenario) (call : CallbackQuery) : M unit :=
  code <~ index (split 0x5F%N 1 (data call)) 1 ;;
  external (answer_callback_query (call_id call) [])
           (unit_outcome (on_lang_answer sc)) ;;;
  external (send_message (chat_id call)
              (default lang_english (lang_texts !! code)) false None)
           (unit_outcome (on_lang_send sc)).

(** bot.py 144: the filter of [cb_lang]. *)
Definition lang_filter (call : CallbackQuery) : bool :=
  startswith (cp "lang_") (data call).

(** bot.py 237: the filter of [cb_download]. *)
Definition download_filter (call : CallbackQuery) : bool :=
  startswith (cp "download|") (data call).

(** bot.py 154: the filter of [handle_links]. *)
Definition links_filter (m : Message) : bool :=
  match extract_url (m_text m) with
  | Some _ => true
  | None => false
  end.

(** A button of an inline keyboard: it opens a link or it carries callback
    data. *)
Inductive KeyboardButton :=
| url_button (lbl url : str)
| callback_button (lbl payload : str).

(** bot.py 138-141: the keyboard of [cmd_start]. *)
Definition start_keyboard (UPDATE_LINK : str) : list KeyboardButton :=
  match UPDATE_LINK with
  | [] => []
  | _ => [url_button ([0x1F517%N] ++ cp " Updates") UPDATE_LINK]
  end
  ++ [callback_button (cp "English " ++ [0x1F1EC; 0x1F1E7]%N) (cp "lang_en");
      callback_button
        ([0x939; 0x93F; 0x928; 0x94D; 0x926; 0x940; 0x20; 0x1F1EE; 0x1F1F3]%N)
        (cp "lang_hi")].

(** bot.py 301-305: the keyboard of [fallback_text]. *)
Definition fallback_keyboard : list KeyboardButton :=
  [callback_button ([0x1F310%N] ++ cp " Select Language") (cp "select_lang");
   url_button ([0x1F501%N] ++ cp " Update Bot")
     (cp "https://t.me/+ee1g-ybcMas5ODdl")].

(** The callback data a keyboard can send back. *)
Definition payloads (kb : list KeyboardButton) : list str :=
  omap (fun b => match b with
                 | callback_button _ d => Some d
                 | url_button _ _ => None
                 end) kb.

(** ** Callbacks handled one after the other *)

Section Sequential.
Context `{Unicode}.
Variable cfg : Config.

(** Each callback is handled to its end before the next one starts. *)
Definition handle_all (jobs : list (DownloadScenario * CallbackQuery))
    (w : World) : World :=
  foldl (fun w1 job => snd (cb_download cfg (fst job) (snd job) w1)) w jobs.

End Sequential.

(** ** Further vocabulary *)

(** Identifier [uid] may have left the request store; every other
    identifier resolves as before. *)
Definition only_removes (uid : str) (w w' : World) : Prop :=
  ∀ k, requests_store w' !! k = requests_store w !! k
       ∨ (k = uid ∧ requests_store w' !! k = None).

(** The files are those of before, preceded by new files of directory [d]. *)
Definition grows_in (d : str) (w w' : World) : Prop :=
  dirs w' = dirs w ∧
  ∃ added, files w' = added ++ files w
           ∧ Forall (fun f => parent (f_path f) = d) added.

(** The expected output path of a download: the engine's file name, with the
    suffix [.mp3] in audio mode (bot.py 107-109). *)
Definition expected_path (audio_only : bool) (out : EngineOutput) : M Path :=
  if audio_only then with_suffix (eo_filename out) (cp ".mp3")
  else ret (eo_filename out).

(** The outcome of the handler for the outcome [r] of its guarded body. *)
Definition handler_result (sc : DownloadScenario) (r : result unit)
  : result unit :=
  match r with
  | Ok _ => Ok tt
  | Raise _ => result_of (on_send_failed sc)
  end.

(** The head of the list, if any, is at least as new as every element. *)
Definition newest_first (l : list File) : Prop :=
  match l with
  | [] => True
  | f :: _ => ∀ g, g ∈ l → (st_mtime g ≤ st_mtime f)%Z
  end.

Definition sample_engine_fails : DownloadScenario :=
  {| on_answer := None; on_notify := inr 7%Z; on_mkdtemp := inr sample_tmpdir;
     on_extract := inl (Error (cp "HTTP Error 403: Forbidden"));
     on_send_too_large := None; on_send_media := None; on_send_failed := None;
     on_delete := None; on_rmtree := None |}.

Definition sample_all_sends_fail : DownloadScenario :=
  {| on_answer := None; on_notify := inr 7%Z; on_mkdtemp := inr sample_tmpdir;
     on_extract :=
       inr {| eo_info := sample_info;
              eo_filename := {| parent := sample_tmpdir; name := cp "clip.mp4" |};
              eo_written := [sample_file "clip.mp4" 5000000] |};
     on_send_too_large := Some (Error (cp "timeout"));
     on_send_media := Some (Error (cp "timeout"));
     on_send_failed := None;
     on_delete := Some (Error (cp "timeout"));
     on_rmtree := Some permission_denied |}.

(** The keyboard a transport call carries. *)
Definition markup_of (c : Call) : option Markup :=
  match c with
  | send_message _ _ _ kb | send_photo _ _ _ _ kb => kb
  | _ => None
  end.

Definition sample_info_thumb : Info :=
  {| title := Text (cp "clip"); description := None;
     thumbnail := Some (cp "https://i.ytimg.com/vi/abc123/hq.jpg");
     duration := Some (inject_Z 125) |}.

Definition sample_photo_fails : LinkScenario :=
  {| on_fetching := inr 3%Z; on_probe := inr (Some sample_info_thumb);
     on_uuid4 := cp "ab12cd34-0000-4000-8000-000000000000";
     on_send_photo := Some (Error (cp "Bad Request: wrong file identifier"));
     on_send_text := None; on_send_again := None;
     on_delete_fetching := None; on_reply := None |}.

(** A file of 2^53 + 1 bytes and a ceiling of 2^33 megabytes. *)
Definition sample_huge : DownloadScenario :=
  sample_scenario "clip.mp4" [sample_file "clip.mp4" 9007199254740993] None.

Definition huge_config : Config := load_config (Some 8589934592%Z).

Definition sample_ogg : DownloadScenario :=
  sample_scenario "voice.ogg" [sample_file "voice.ogg" 5000000] None.

(** The engine's metadata holds None under "title". *)
Definition sample_null_title : DownloadScenario :=
  {| on_answer := None; on_notify := inr 7%Z; on_mkdtemp := inr sample_tmpdir;
     on_extract :=
       inr {| eo_info := {| title := Null; description := None;
                            thumbnail := None; duration := None |};
              eo_filename := {| parent := sample_tmpdir; name := cp "clip.mp4" |};
              eo_written := [sample_file "clip.mp4" 5000000] |};
     on_send_too_large := None; on_send_media := None; on_send_failed := None;
     on_delete := None; on_rmtree := None |}.

(** [frag in url], said without the code: the fragment occurs somewhere in
    the URL. *)
Definition occurs_in (frag url : str) : Prop :=
  ∃ pre post, url = pre ++ frag ++ post.

Definition sample_instagram_message : Message :=
  {| m_chat := 42;
     m_text := Some (cp "look https://www.instagram.com/reel/xyz987/ !") |}.

Definition sample_call_audio : CallbackQuery :=
  {| call_id := cp "cb2"; data := cp "download|ab12cd34|audio"; chat_id := 42 |}.

(** * Properties *)

(** ** The model on concrete inputs *)

Example extract_url_first :
  extract_url (Some (cp "see http://a.io/x and https://youtu.be/abc123 now"))
  = Some (cp "http://a.io/x").
Proof. vm_compute. reflexivity. Qed.

Example extract_url_scheme_only :
  extract_url (Some (cp "https:// nothing")) = None.
Proof. vm_compute. reflexivity. Qed.

Example split_three :
  split 0x7C%N 2 (cp "download|ab12|video|x")
  = [cp "download"; cp "ab12"; cp "video|x"].
Proof. vm_compute. reflexivity. Qed.

Example split_two : split 0x7C%N 2 (cp "download|ab12") = [cp "download"; cp "ab12"].
Proof. vm_compute. reflexivity. Qed.

Example strip_both : strip (cp "  a b ") = cp "a b".
Proof. vm_compute. reflexivity. Qed.

Example suffix_examples :
  suffix {| parent := cp "d"; name := cp "clip.mp4" |} = cp ".mp4" ∧
  suffix {| parent := cp "d"; name := cp "a.tar.gz" |} = cp ".gz" ∧
  suffix {| parent := cp "d"; name := cp ".hidden" |} = [] ∧
  suffix {| parent := cp "d"; name := cp "clip" |} = [].
Proof. vm_compute. done. Qed.

Example with_suffix_example :
  with_suffix {| parent := cp "d"; name := cp "song.webm" |} (cp ".mp3")
    empty_world
  = (Ok {| parent := cp "d"; name := cp "song.mp3" |}, empty_world).
Proof. vm_compute. reflexivity. Qed.

Example sorted_newest_stable :
  st_size <$> sorted_newest
    [ {| f_path := {| parent := []; name := cp "a" |}; st_size := 1; st_mtime := 10 |};
      {| f_path := {| parent := []; name := cp "b" |}; st_size := 2; st_mtime := 30 |};
      {| f_path := {| parent := []; name := cp "c" |}; st_size := 3; st_mtime := 30 |};
      {| f_path := {| parent := []; name := cp "d" |}; st_size := 4; st_mtime := 20 |} ]
  = [2; 3; 4; 1]%Z.
Proof. vm_compute. reflexivity. Qed.

Example download_falls_back_to_newest :
  fst (download_with_yt
         (sample_scenario "clip.webm" [sample_file "clip.mkv" 10] None)
         (cp "u") sample_tmpdir false empty_world)
  = Ok ({| parent := sample_tmpdir; name := cp "clip.mkv" |}, sample_info).
Proof. vm_compute. reflexivity. Qed.

Example download_audio_suffix :
  fst (download_with_yt
         (sample_scenario "song.webm" [sample_file "song.mp3" 10] None)
         (cp "u") sample_tmpdir true empty_world)
  = Ok ({| parent := sample_tmpdir; name := cp "song.mp3" |}, sample_info).
Proof. vm_compute. reflexivity. Qed.

Example file_too_big_boundary :
  let at_limit := set_files (fun _ => [sample_file "f" (1900 * 1024 * 1024)])
                    empty_world in
  let above := set_files (fun _ => [sample_file "f" (1900 * 1024 * 1024 + 1)])
                 empty_world in
  fst (file_too_big (load_config None)
         {| parent := sample_tmpdir; name := cp "f" |} at_limit) = Ok false ∧
  fst (file_too_big (load_config None)
         {| parent := sample_tmpdir; name := cp "f" |} above) = Ok true.
Proof. vm_compute. done. Qed.

Example round53_examples :
  round53 9007199254740991 = 9007199254740991%Z ∧
  round53 9007199254740993 = 9007199254740992%Z ∧
  round53 9007199254740995 = 9007199254740996%Z ∧
  round53 9223372036854775807 = 9223372036854775808%Z.
Proof. vm_compute. done. Qed.

Example mins_text_examples :
  mins_text (Some (inject_Z 125)) = cp "2m5s" ∧
  mins_text (Some (251 # 2)%Q) = cp "2m5s" ∧
  mins_text (Some (inject_Z 0)) = [] ∧
  mins_text None = [].
Proof. vm_compute. done. Qed.

Example instagram_text_example :
  @instagram_text ascii_tables
    (Some {| title := Text (cp "T"); description := Some (cp "Sun #Sun #sun ");
             thumbnail := None; duration := None |})
  = cp "*T*" ++ nl ++ nl ++ cp "Sun #Sun #sun" ++ nl ++ nl ++ cp "#Sun".
Proof. vm_compute. reflexivity. Qed.

Example audio_mode_sends_audio :
  log (snd (@cb_download ascii_tables (load_config None)
              (sample_scenario "song.webm" [sample_file "song.mp3" 10] None)
              {| call_id := cp "cb1"; data := cp "download|ab12cd34|audio";
                 chat_id := 42 |}
              sample_world))
  = [answer_callback_query (cp "cb1") starting_download;
     send_message 42 (downloading_text (cp "audio")) false None;
     mkdtemp (cp "savemedia_");
     ydl_download (cp "https://youtu.be/abc123") sample_tmpdir true;
     send_audio 42 {| parent := sample_tmpdir; name := cp "song.mp3" |}
       (Some (cp "clip"));
     delete_message 42 7;
     rmtree sample_tmpdir].
Proof. vm_compute. reflexivity. Qed.

Example expired_request :
  @cb_download ascii_tables (load_config None) sample_ok sample_call empty_world
  = (Ok tt,
     log_call (answer_callback_query (cp "cb1") request_expired) empty_world).
Proof. vm_compute. reflexivity. Qed.

(** ** Hashtags *)

Lemma take_drop_while p s : take_while p s ++ drop_while p s = s.
Proof.
  induction s as [|c r IH]; simpl; [done|].
  destruct (p c); simpl; [by rewrite IH|done].
Qed.

Lemma take_while_Forall p s : Forall (fun c => p c = true) (take_while p s).
Proof.
  induction s as [|c r IH]; simpl; [constructor|].
  destruct (p c) eqn:E; by constructor.
Qed.

Section HashtagFacts.
Context `{Unicode}.

Lemma dedup_loop_out tags seen out :
  dedup_loop tags seen out = out ++ dedup_loop tags seen [].
Proof.
  revert seen out. induction tags as [|t ts IH]; intros seen out; simpl.
  - by rewrite app_nil_r.
  - case_decide; [apply IH|].
    rewrite (IH _ (out ++ [t])), (IH _ [t]). by rewrite <- app_assoc.
Qed.

Lemma dedup_loop_cons t ts seen :
  dedup_loop (t :: ts) seen [] =
    if decide (str_lower t ∈ seen) then dedup_loop ts seen []
    else t :: dedup_loop ts ({[str_lower t]} ∪ seen) [].
Proof.
  simpl. case_decide; [done|]. by rewrite dedup_loop_out.
Qed.

Lemma dedup_loop_fresh tags seen x :
  x ∈ (str_lower <$> dedup_loop tags seen []) → x ∉ seen.
Proof.
  revert seen. induction tags as [|t ts IH]; intros seen.
  - simpl. by intros ?%elem_of_nil.
  - rewrite dedup_loop_cons. case_decide as Hin; [apply IH|].
    rewrite fmap_cons. intros [->|Hx]%elem_of_cons; [done|].
    apply IH in Hx. set_solver.
Qed.

Lemma dedup_loop_NoDup tags seen :
  NoDup (str_lower <$> dedup_loop tags seen []).
Proof.
  revert seen. induction tags as [|t ts IH]; intros seen.
  - simpl. constructor.
  - rewrite dedup_loop_cons. case_decide; [apply IH|].
    rewrite fmap_cons. constructor; [|apply IH].
    intros Hx%dedup_loop_fresh. set_solver.
Qed.

Lemma dedup_loop_sublist tags seen :
  sublist (dedup_loop tags seen []) tags.
Proof.
  revert seen. induction tags as [|t ts IH]; intros seen.
  - simpl. constructor.
  - rewrite dedup_loop_cons. case_decide.
    + by apply sublist_cons.
    + by apply sublist_skip.
Qed.

Lemma dedup_loop_complete tags seen t :
  t ∈ tags →
  str_lower t ∈ seen ∨ str_lower t ∈ (str_lower <$> dedup_loop tags seen []).
Proof.
  revert seen. induction tags as [|a ts IH]; intros seen.
  - by intros ?%elem_of_nil.
  - rewrite dedup_loop_cons. intros [->|Ht]%elem_of_cons.
    + case_decide; [by left|]. right. rewrite fmap_cons. left.
    + case_decide; [by apply IH|].
      destruct (IH ({[str_lower a]} ∪ seen) Ht) as [Hs|Hs].
      * apply elem_of_union in Hs as [->%elem_of_singleton|Hs]; [|by left].
        right. rewrite fmap_cons. left.
      * right. rewrite fmap_cons. by right.
Qed.

Lemma dedup_loop_first_seen tags seen pre t post :
  dedup_loop tags seen [] = pre ++ t :: post →
  ∃ pre' post',
    tags = pre' ++ t :: post' ∧
    (str_lower t ∉ (str_lower <$> pre')) ∧
    (str_lower t ∉ seen) ∧
    ∀ u, u ∈ pre' → str_lower u ∈ seen ∨ str_lower u ∈ (str_lower <$> pre).
Proof.
  revert seen pre. induction tags as [|a ts IH]; intros seen pre.
  - simpl. by destruct pre.
  - rewrite dedup_loop_cons. case_decide as Ha.
    + intros (pre' & post' & -> & Hn & Hs & Hpre)%IH.
      exists (a :: pre'), post'. split_and!; [done| |done|].
      * rewrite fmap_cons. intros [E|?]%elem_of_cons; [congruence|done].
      * intros u [->|Hu]%elem_of_cons; [by left|by apply Hpre].
    + destruct pre as [|b pre2]; intros Heq; simpl in Heq.
      * injection Heq as <- <-. exists [], ts. split_and!; [done| |done|].
        -- simpl. by intros ?%elem_of_nil.
        -- by intros u ?%elem_of_nil.
      * injection Heq as <- (pre' & post' & -> & Hn & Hs & Hpre)%IH.
        exists (a :: pre'), post'. split_and!; [done| | |].
        -- rewrite fmap_cons. intros [E|?]%elem_of_cons; [|done].
           apply Hs. rewrite E. set_solver.
        -- set_solver.
        -- intros u [->|Hu]%elem_of_cons.
           ++ right. rewrite fmap_cons. left.
           ++ destruct (Hpre u Hu) as [Hu'|Hu'].
              ** apply elem_of_union in Hu' as [->%elem_of_singleton|Hu'];
                   [|by left].
                 right. rewrite fmap_cons. left.
              ** right. rewrite fmap_cons. by right.
Qed.

Lemma findall_from_hashtags skip s : Forall is_hashtag (findall_from skip s).
Proof.
  revert skip. induction s as [|c r IH]; intros skip; [constructor|].
  destruct skip as [|k]; [|apply IH]. cbn [findall_from HASHTAG_RE_match].
  destruct (N.eqb_spec c 0x23) as [->|_]; [|apply IH].
  destruct (take_while is_word r) as [|x w] eqn:E; [apply IH|].
  constructor; [|apply IH]. exists (x :: w). split_and!; [done..|].
  rewrite <- E. apply take_while_Forall.
Qed.

Lemma hashtags_from_text_loop text :
  hashtags_from_text text = dedup_loop (findall_hashtags text) ∅ [].
Proof. by destruct text. Qed.

End HashtagFacts.

(** C7.  Hashtag extraction removes duplicates modulo case, keeps the casing
    of the first occurrence and the order of first occurrence: the outputs
    are hashtags and form a subsequence of the tags found, no two outputs have the same lower-case
    form, every tag found has its lower-case form in the output, and each
    output is the first tag of its lower-case form, all earlier tags having
    a form already output before it.  On ["Great day! #Sun #sun #Fun"] the
    output is [["#Sun"; "#Fun"]]. *)
Theorem hashtags_dedup_first_seen :
  (∀ (U : Unicode) (text : str),
     let tags := findall_hashtags text in
     let out := hashtags_from_text text in
     Forall is_hashtag out ∧
     NoDup (str_lower <$> out) ∧
     sublist out tags ∧
     (∀ t, t ∈ tags → str_lower t ∈ (str_lower <$> out)) ∧
     (∀ pre t post, out = pre ++ t :: post →
        ∃ pre' post',
          tags = pre' ++ t :: post' ∧
          (str_lower t ∉ (str_lower <$> pre')) ∧
          ∀ u, u ∈ pre' → str_lower u ∈ (str_lower <$> pre))) ∧
  @hashtags_from_text ascii_tables (cp "Great day! #Sun #sun #Fun")
  = [cp "#Sun"; cp "#Fun"].
Proof.
  split; [|vm_compute; reflexivity].
  intros U text tags out. subst tags out.
  rewrite hashtags_from_text_loop. split_and!.
  - apply Forall_forall. intros t Ht.
    eapply elem_of_sublist in Ht; [|apply dedup_loop_sublist].
    revert t Ht. apply Forall_forall, findall_from_hashtags.
  - apply dedup_loop_NoDup.
  - apply dedup_loop_sublist.
  - intros t Ht. destruct (dedup_loop_complete _ ∅ t Ht); [set_solver|done].
  - intros pre t post Hout.
    destruct (dedup_loop_first_seen _ _ _ _ _ Hout)
      as (pre' & post' & ? & ? & _ & Hpre).
    exists pre', post'. split_and!; [done..|].
    intros u Hu. destruct (Hpre u Hu); [set_solver|done].
Qed.

(** ** Description snippet *)

Lemma drop_while_head p s c : head (drop_while p s) = Some c → p c = false.
Proof.
  induction s as [|a r IH]; simpl; [done|].
  destruct (p a) eqn:E; [done|]. simpl. by intros [= <-].
Qed.

Lemma drop_while_id p s c : head s = Some c → p c = false → drop_while p s = s.
Proof. destruct s as [|a r]; simpl; [done|]. by intros [= ->] ->. Qed.

Lemma head_rev (s : str) : head (rev s) = last s.
Proof.
  induction s as [|a r IH] using rev_ind; [done|].
  by rewrite rev_unit, last_snoc.
Qed.

Lemma strip_decompose s :
  ∃ l r, s = l ++ strip s ++ r ∧
         Forall (fun c => isspace c = true) l ∧
         Forall (fun c => isspace c = true) r.
Proof.
  exists (take_while isspace s),
         (rev (take_while isspace (rev (drop_while isspace s)))).
  split_and!.
  - unfold strip. rewrite <- rev_app_distr, take_drop_while, rev_involutive.
    by rewrite take_drop_while.
  - apply take_while_Forall.
  - apply Forall_rev, take_while_Forall.
Qed.

Lemma strip_last s c : last (strip s) = Some c → isspace c = false.
Proof.
  unfold strip. rewrite <- head_rev, rev_involutive. apply drop_while_head.
Qed.

Lemma strip_head s c : head (strip s) = Some c → isspace c = false.
Proof.
  intros Hc. apply (drop_while_head isspace s).
  assert (drop_while isspace s =
            strip s ++ rev (take_while isspace (rev (drop_while isspace s))))
    as ->.
  { unfold strip. by rewrite <- rev_app_distr, take_drop_while, rev_involutive. }
  destruct (strip s); [done|]. done.
Qed.

Lemma strip_id s a b :
  head s = Some a → last s = Some b →
  isspace a = false → isspace b = false → strip s = s.
Proof.
  intros Ha Hb Hna Hnb. unfold strip.
  rewrite (drop_while_id _ s a Ha Hna).
  rewrite (drop_while_id _ (rev s) b); [apply rev_involutive| |done].
  by rewrite head_rev.
Qed.

(** C8, as the code has it.  The snippet is computed from the description
    with its leading and trailing whitespace removed: when that stripped text
    is longer than 800 characters the snippet is its first 800 characters
    followed by ["..."], otherwise the snippet is the stripped text; a
    description that neither starts nor ends with whitespace is its own
    stripped text. *)
Theorem caption_snippet_truncates_stripped (caption : str) :
  (∃ l r, caption = l ++ strip caption ++ r ∧
          Forall (fun c => isspace c = true) l ∧
          Forall (fun c => isspace c = true) r) ∧
  (∀ c, head (strip caption) = Some c ∨ last (strip caption) = Some c →
        isspace c = false) ∧
  (800 < length (strip caption) →
     caption_snippet caption = take 800 (strip caption) ++ cp "...") ∧
  (length (strip caption) ≤ 800 → caption_snippet caption = strip caption) ∧
  (∀ a b, head caption = Some a → last caption = Some b →
          isspace a = false → isspace b = false → strip caption = caption).
Proof.
  split_and!.
  - apply strip_decompose.
  - intros c [Hc|Hc]; [by eapply strip_head|by eapply strip_last].
  - intros Hlen. unfold caption_snippet.
    by destruct (Nat.ltb_spec 800 (length (strip caption))); [|lia].
  - intros Hlen. unfold caption_snippet.
    by destruct (Nat.ltb_spec 800 (length (strip caption))); [lia|].
  - apply strip_id.
Qed.

Lemma caption_snippet_truncates_stripped_witness :
  caption_snippet (replicate 900 0x61%N) = replicate 800 0x61%N ++ cp "..." ∧
  caption_snippet (replicate 500 0x61%N) = replicate 500 0x61%N.
Proof.
  split.
  - destruct (caption_snippet_truncates_stripped (replicate 900 0x61%N))
      as (_ & _ & Hlong & _ & _).
    rewrite Hlong; [vm_compute; reflexivity|vm_compute; lia].
  - destruct (caption_snippet_truncates_stripped (replicate 500 0x61%N))
      as (_ & _ & _ & Hshort & _).
    rewrite Hshort; [vm_compute; reflexivity|vm_compute; lia].
Defined.

(** C8, as stated, fails on a description with surrounding whitespace: a
    two-character description is modified, and a description of 801
    characters that ends with a space gets no ellipsis. *)
Lemma caption_snippet_modifies_padded :
  (length (cp " a") ≤ 800 ∧ caption_snippet (cp " a") ≠ cp " a") ∧
  (800 < length (replicate 800 0x61%N ++ [0x20%N]) ∧
   caption_snippet (replicate 800 0x61%N ++ [0x20%N])
   ≠ take 800 (replicate 800 0x61%N ++ [0x20%N]) ++ cp "...").
Proof.
  split; split.
  - vm_compute. lia.
  - vm_compute. discriminate.
  - vm_compute. lia.
  - intros E. apply (f_equal length) in E. vm_compute in E. discriminate.
Qed.

(** ** Reasoning about handlers *)

Lemma bind_Ok {A B} (m : M A) (k : A → M B) w a w1 :
  m w = (Ok a, w1) → bind m k w = k a w1.
Proof. unfold bind. by intros ->. Qed.

Lemma bind_Raise {A B} (m : M A) (k : A → M B) w e w1 :
  m w = (Raise e, w1) → bind m k w = (Raise e, w1).
Proof. unfold bind. by intros ->. Qed.

Section Preserves.
Variable R : World → World → Prop.
Hypothesis R_refl : ∀ w, R w w.
Hypothesis R_trans : ∀ w1 w2 w3, R w1 w2 → R w2 w3 → R w1 w3.

Lemma preserves_ret {A} (a : A) : preserves R (ret a).
Proof. intros w. apply R_refl. Qed.

Lemma preserves_raise {A} e : preserves R (@raise A e).
Proof. intros w. apply R_refl. Qed.

Lemma preserves_get_world : preserves R get_world.
Proof. intros w. apply R_refl. Qed.

Lemma preserves_bind {A B} (m : M A) (k : A → M B) :
  preserves R m → (∀ a, preserves R (k a)) → preserves R (bind m k).
Proof.
  intros Hm Hk w. unfold bind. specialize (Hm w).
  destruct (m w) as [[a|e] w1]; simpl in *; [|done].
  eapply R_trans; [done|apply Hk].
Qed.

Lemma preserves_try_except {A} (m : M A) (h : exn → M A) :
  preserves R m → (∀ e, preserves R (h e)) → preserves R (try_except m h).
Proof.
  intros Hm Hh w. unfold try_except. specialize (Hm w).
  destruct (m w) as [[a|e] w1]; simpl in *; [done|].
  eapply R_trans; [done|apply Hh].
Qed.

Lemma preserves_try_finally {A} (m : M A) (f : M unit) :
  preserves R m → preserves R f → preserves R (try_finally m f).
Proof.
  intros Hm Hf w. unfold try_finally. specialize (Hm w).
  destruct (m w) as [r w1]; simpl in *. specialize (Hf w1).
  destruct (f w1) as [[[]|e] w2]; simpl in *; by eapply R_trans.
Qed.

Lemma preserves_try_pass (m : M unit) : preserves R m → preserves R (try_pass m).
Proof.
  intros Hm. apply preserves_try_except; [done|]. intros _. apply preserves_ret.
Qed.

Lemma preserves_stat p : preserves R (stat p).
Proof. intros w. unfold stat. destruct (lookup_file p w); apply R_refl. Qed.

Lemma preserves_open_rb p : preserves R (open_rb p).
Proof.
  apply preserves_bind; [apply preserves_stat|]. intros _. apply preserves_ret.
Qed.

Lemma preserves_file_too_big cfg p : preserves R (file_too_big cfg p).
Proof.
  apply preserves_try_except.
  - apply preserves_bind; [apply preserves_stat|]. intros f. apply preserves_ret.
  - intros _. apply preserves_ret.
Qed.

End Preserves.

Lemma same_ledger_refl w : same_ledger w w.
Proof. by split. Qed.

Lemma same_ledger_trans w1 w2 w3 :
  same_ledger w1 w2 → same_ledger w2 w3 → same_ledger w1 w3.
Proof. intros [? ?] [? ?]. split; congruence. Qed.

Lemma logged_refl Q w : logged Q w w.
Proof. exists []. by rewrite app_nil_r. Qed.

Lemma logged_trans Q w1 w2 w3 :
  logged Q w1 w2 → logged Q w2 w3 → logged Q w1 w3.
Proof.
  intros (x & Hx & Qx) (y & Hy & Qy). exists (x ++ y).
  split; [by rewrite Hy, Hx, app_assoc|by apply Forall_app].
Qed.

Lemma same_ledger_external {A} c (o : exn + A) :
  preserves same_ledger (external c o).
Proof. intros w. unfold external. by destruct o. Qed.

Lemma logged_external Q {A} c (o : exn + A) :
  Q c → preserves (logged Q) (external c o).
Proof.
  intros Hc w. exists [c].
  split; [by destruct o|by constructor].
Qed.

Lemma logged_modify_silent Q f :
  (∀ w, log (f w) = log w) → preserves (logged Q) (modify f).
Proof. intros Hf w. exists []. simpl. by rewrite Hf, app_nil_r. Qed.

(** ** Callback payloads *)

Lemma partition_at_count sep s :
  match partition_at sep s with
  | Some (a, b) => count_char sep s = S (count_char sep b)
  | None => count_char sep s = 0
  end.
Proof.
  unfold count_char. induction s as [|c r IH]; [done|].
  cbn [partition_at]. rewrite filter_cons.
  destruct (N.eqb_spec c sep) as [->|Hne]; case_decide; try done.
  by destruct (partition_at sep r) as [[a b]|].
Qed.

Lemma split_length sep n s :
  length (split sep n s) = S (n `min` count_char sep s).
Proof.
  revert s. induction n as [|n IH]; intros s; simpl; [done|].
  pose proof (partition_at_count sep s) as Hc.
  destruct (partition_at sep s) as [[a b]|]; simpl.
  - rewrite IH, Hc. done.
  - by rewrite Hc.
Qed.

Section CallbackFacts.
Context `{Unicode}.
Variable cfg : Config.

Lemma cb_download_lookup_invalid sc call w :
  length (split 0x7C%N 2 (data call)) ≠ 3 →
  cb_download_lookup sc call w =
    (match on_answer sc with None => Ok None | Some e => Raise e end,
     log_call (answer_callback_query (call_id call) invalid_request) w).
Proof.
  intros Hlen. unfold cb_download_lookup.
  destruct (split 0x7C%N 2 (data call)) as [|a [|b [|c [|d l]]]];
    try done; unfold bind, external, unit_outcome; by destruct (on_answer sc).
Qed.

Lemma cb_download_lookup_expired sc call w v uid mode :
  split 0x7C%N 2 (data call) = [v; uid; mode] →
  requests_store w !! uid = None →
  cb_download_lookup sc call w =
    (match on_answer sc with None => Ok None | Some e => Raise e end,
     log_call (answer_callback_query (call_id call) request_expired) w).
Proof.
  intros Hs Hu. unfold cb_download_lookup. rewrite Hs.
  unfold bind, get_world, external, unit_outcome. rewrite Hu.
  by destruct (on_answer sc).
Qed.

Lemma cb_download_lookup_resolved sc call w v uid mode req :
  split 0x7C%N 2 (data call) = [v; uid; mode] →
  requests_store w !! uid = Some req →
  cb_download_lookup sc call w =
    (match on_answer sc with
     | None => Ok (Some (uid, mode, req))
     | Some e => Raise e
     end,
     log_call (answer_callback_query (call_id call) starting_download) w).
Proof.
  intros Hs Hu. unfold cb_download_lookup. rewrite Hs.
  unfold bind, get_world, external, unit_outcome. rewrite Hu.
  by destruct (on_answer sc).
Qed.

Lemma cb_download_lookup_inv sc call w uid mode req w1 :
  cb_download_lookup sc call w = (Ok (Some (uid, mode, req)), w1) →
  (∃ v, split 0x7C%N 2 (data call) = [v; uid; mode]) ∧
  requests_store w !! uid = Some req ∧
  on_answer sc = None ∧
  w1 = log_call (answer_callback_query (call_id call) starting_download) w.
Proof.
  destruct (decide (length (split 0x7C%N 2 (data call)) = 3)) as [Hl|Hl].
  - destruct (split 0x7C%N 2 (data call)) as [|v [|u [|md [|d l]]]] eqn:Hs;
      try done.
    destruct (requests_store w !! u) as [rq|] eqn:Hu.
    + rewrite (cb_download_lookup_resolved _ _ _ _ _ _ _ Hs Hu).
      destruct (on_answer sc); [done|]. intros [= <- <- <- <-]. eauto.
    + rewrite (cb_download_lookup_expired _ _ _ _ _ _ Hs Hu).
      by destruct (on_answer sc).
  - rewrite cb_download_lookup_invalid by done. by destruct (on_answer sc).
Qed.

End CallbackFacts.

(** C6.  A callback payload with fewer than three fields separated by ["|"]
    (fewer than two separators) is answered with ["Invalid request."] and
    nothing else happens: the only call made is that answer, and the request
    store, the directories and the files are those of before. *)
Theorem malformed_payload_rejected (U : Unicode) (cfg : Config)
    (sc : DownloadScenario) (call : CallbackQuery) (w : World) :
  count_char 0x7C%N (data call) < 2 →
  cb_download cfg sc call w =
    (match on_answer sc with None => Ok tt | Some e => Raise e end,
     {| requests_store := requests_store w; dirs := dirs w; files := files w;
        log := log w
               ++ [answer_callback_query (call_id call) invalid_request] |}).
Proof.
  intros Hc. unfold cb_download, bind.
  rewrite cb_download_lookup_invalid.
  - by destruct (on_answer sc).
  - rewrite split_length. lia.
Qed.

Lemma malformed_payload_rejected_witness :
  let call := {| call_id := cp "77"; data := cp "download|ab12cd34";
                 chat_id := 5 |} in
  let sc := {| on_answer := None; on_notify := inr 1%Z;
               on_mkdtemp := inr (cp "/tmp/savemedia_x");
               on_extract := inl (Error (cp "unused"));
               on_send_too_large := None; on_send_media := None;
               on_send_failed := None; on_delete := None;
               on_rmtree := None |} in
  let w := {| requests_store :=
                {[ cp "ab12cd34" := {| req_url := cp "https://youtu.be/abc123";
                                       req_type := cp "youtube" |} ]};
              dirs := ∅; files := []; log := [] |} in
  @cb_download ascii_tables (load_config None) sc call w =
    (Ok tt,
     {| requests_store := requests_store w; dirs := ∅; files := [];
        log := [answer_callback_query (cp "77") invalid_request] |}).
Proof.
  intros call sc w.
  apply (malformed_payload_rejected ascii_tables (load_config None) sc call w).
  vm_compute. lia.
Defined.

(** ** The download of a resolved request *)

Lemma external_unit c o w :
  external c (unit_outcome o) w = (result_of o, log_call c w).
Proof. by destruct o. Qed.

Lemma stat_Some p w f : lookup_file p w = Some f → stat p w = (Ok f, w).
Proof. unfold stat. by intros ->. Qed.

Lemma stat_None p w :
  lookup_file p w = None → stat p w = (Raise (no_such_file p), w).
Proof. unfold stat. by intros ->. Qed.

Lemma file_too_big_Some cfg p w f :
  lookup_file p w = Some f →
  file_too_big cfg p w =
    (Ok (negb (Qle_bool (size_mb f) (inject_Z (MAX_FILESIZE_MB cfg)))), w).
Proof.
  intros Hf. unfold file_too_big, try_except.
  by rewrite (bind_Ok _ _ _ _ _ (stat_Some _ _ _ Hf)).
Qed.

Lemma file_too_big_None cfg p w :
  lookup_file p w = None → file_too_big cfg p w = (Ok true, w).
Proof.
  intros Hf. unfold file_too_big, try_except.
  by rewrite (bind_Raise _ _ _ _ _ (stat_None _ _ Hf)).
Qed.

Lemma round53_small n : (0 ≤ n < 2 ^ 53)%Z → round53 n = n.
Proof.
  intros [Hn Hlt]. unfold round53.
  assert (Z.log2 (Z.abs n) + 1 ≤ 53)%Z as Hb.
  { rewrite Z.abs_eq by done. destruct (Z.eq_dec n 0%Z) as [->|Hne]; [done|].
    assert (Z.log2 n < 53)%Z; [|lia]. apply Z.log2_lt_pow2; lia. }
  by destruct (Z.leb_spec (Z.log2 (Z.abs n) + 1) 53); [|lia].
Qed.

Lemma size_mb_small f :
  (0 ≤ st_size f < 2 ^ 53)%Z → size_mb f = (st_size f # 1048576)%Q.
Proof. intros Hs. unfold size_mb. by rewrite round53_small. Qed.

Lemma Q_int_size_mb f :
  (0 ≤ st_size f < 2 ^ 53)%Z →
  Q_int (size_mb f) = (st_size f `div` 1048576)%Z.
Proof.
  intros Hs. rewrite size_mb_small by done. unfold Q_int.
  destruct (Qle_bool 0 (st_size f # 1048576)) eqn:E; [done|].
  assert (Qle_bool 0 (st_size f # 1048576) = true); [|congruence].
  apply Qle_bool_iff. unfold Qle. simpl. lia.
Qed.

Lemma download_with_yt_log sc url outdir audio w r w1 :
  download_with_yt sc url outdir audio w = (r, w1) →
  same_ledger w w1 ∧ log w1 = log w ++ [ydl_download url outdir audio].
Proof.
  unfold download_with_yt, bind, external, modify, with_suffix, path_exists,
    glob, ret, raise.
  destruct (on_extract sc) as [e|out]; [by intros [= <- <-]|].
  destruct audio; simpl.
  - destruct (name (eo_filename out)); [by intros [= <- <-]|].
    case_bool_decide; [by intros [= <- <-]|].
    match goal with |- context [sorted_newest ?l] =>
      destruct (sorted_newest l) end; by intros [= <- <-].
  - case_bool_decide; [by intros [= <- <-]|].
    match goal with |- context [sorted_newest ?l] =>
      destruct (sorted_newest l) end; by intros [= <- <-].
Qed.

Section RunFacts.
Context `{Unicode}.
Variable cfg : Config.

Lemma try_pass_external c o w :
  try_pass (external c (unit_outcome o)) w = (Ok tt, log_call c w).
Proof. unfold try_pass, try_except. rewrite external_unit. by destruct o. Qed.

Lemma try_pass_rmtree o d w :
  d ∈ dirs w →
  ∃ w', try_pass (shutil_rmtree o d) w = (Ok tt, w') ∧
        requests_store w' = requests_store w ∧
        log w' = log w ++ [rmtree d] ∧
        (o = None → (d ∉ dirs w') ∧ ∀ f, f ∈ files w' → parent (f_path f) ≠ d) ∧
        (o ≠ None → dirs w' = dirs w ∧ files w' = files w).
Proof.
  intros Hd. unfold try_pass, try_except, shutil_rmtree, bind, get_world.
  destruct (decide (d ∈ dirs w)) as [?|?]; [|done].
  rewrite external_unit. destruct o as [e0|]; simpl.
  - eexists. split; [reflexivity|]. by split_and!.
  - eexists. split; [reflexivity|]. split_and!; [done..| |done].
    intros _. simpl. split.
    + apply not_elem_of_difference. right. by apply elem_of_singleton.
    + intros f [Hp _]%list_elem_of_filter. exact Hp.
Qed.

Lemma try_pass_del_request uid w :
  ∃ w', try_pass_KeyError (del_request uid) w = (Ok tt, w') ∧
        requests_store w' = delete uid (requests_store w) ∧
        dirs w' = dirs w ∧ files w' = files w ∧ log w' = log w.
Proof.
  unfold try_pass_KeyError, try_except, del_request, bind, get_world.
  destruct (requests_store w !! uid) eqn:Hu; simpl.
  - eexists. split; [reflexivity|]. by split_and!.
  - eexists. split; [reflexivity|]. split_and!; [|done..].
    by rewrite delete_id.
Qed.

Lemma cleanup_spec sc call notify tmpdir uid w :
  tmpdir ∈ dirs w →
  ∃ w', cleanup sc call notify tmpdir uid w = (Ok tt, w') ∧
        requests_store w' = delete uid (requests_store w) ∧
        log w' = log w ++ [delete_message (chat_id call) notify; rmtree tmpdir] ∧
        (on_rmtree sc = None →
           (tmpdir ∉ dirs w') ∧ ∀ f, f ∈ files w' → parent (f_path f) ≠ tmpdir) ∧
        (on_rmtree sc ≠ None → dirs w' = dirs w ∧ files w' = files w).
Proof.
  intros Hd. unfold cleanup.
  rewrite (bind_Ok _ _ _ _ _ (try_pass_external _ _ _)).
  destruct (try_pass_rmtree (on_rmtree sc) tmpdir
              (log_call (delete_message (chat_id call) notify) w) Hd)
    as (w1 & E1 & Hs1 & Hl1 & Hok & Hko).
  rewrite (bind_Ok _ _ _ _ _ E1).
  destruct (try_pass_del_request uid w1) as (w2 & E2 & Hs2 & Hd2 & Hf2 & Hl2).
  exists w2. split; [done|]. split_and!.
  - by rewrite Hs2, Hs1.
  - rewrite Hl2, Hl1. simpl. by rewrite <- app_assoc.
  - rewrite Hd2, Hf2. done.
  - rewrite Hd2, Hf2. done.
Qed.

Lemma cb_download_run_start sc call uid mode req w nid tmpdir :
  on_notify sc = inr nid → on_mkdtemp sc = inr tmpdir →
  cb_download_run cfg sc call uid mode req w =
    try_finally
      (try_except
         (download_and_send cfg sc call (req_url req) mode tmpdir)
         (fun e =>
            external (send_message (chat_id call) (download_failed_text e)
                        false None)
                     (unit_outcome (on_send_failed sc))))
      (cleanup sc call nid tmpdir uid)
      (run_start call mode tmpdir w).
Proof.
  intros Hn Hm. unfold cb_download_run, tempfile_mkdtemp, bind, external.
  by rewrite Hn, Hm.
Qed.

Lemma same_ledger_download_with_yt sc url outdir audio :
  preserves same_ledger (download_with_yt sc url outdir audio).
Proof.
  intros w. destruct (download_with_yt sc url outdir audio w) as [r w1] eqn:E.
  by apply download_with_yt_log in E as [? _].
Qed.

Lemma same_ledger_download_and_send sc call url mode tmpdir :
  preserves same_ledger (download_and_send cfg sc call url mode tmpdir).
Proof.
  unfold download_and_send.
  apply (preserves_bind _ same_ledger_trans);
    [apply same_ledger_download_with_yt|]. intros [filepath info].
  apply (preserves_bind _ same_ledger_trans);
    [apply (preserves_file_too_big _ same_ledger_refl same_ledger_trans)|].
  intros [].
  - apply (preserves_bind _ same_ledger_trans);
      [apply (preserves_stat _ same_ledger_refl)|].
    intros f. apply same_ledger_external.
  - destruct (_ || _);
      (apply (preserves_bind _ same_ledger_trans);
         [apply (preserves_open_rb _ same_ledger_refl same_ledger_trans)|]);
      intros _; apply same_ledger_external.
Qed.

Lemma same_ledger_guarded_download sc call url mode tmpdir :
  preserves same_ledger
    (try_except
       (download_and_send cfg sc call url mode tmpdir)
       (fun e =>
          external (send_message (chat_id call) (download_failed_text e)
                      false None)
                   (unit_outcome (on_send_failed sc)))).
Proof.
  apply (preserves_try_except _ same_ledger_trans).
  - apply same_ledger_download_and_send.
  - intros e. apply same_ledger_external.
Qed.

(** Once the notice is sent and the scratch directory is made, the
    download ends with the entry deleted, whatever the engine and the
    transport answer. *)
Lemma cb_download_run_cleans sc call uid mode req w nid tmpdir :
  on_notify sc = inr nid → on_mkdtemp sc = inr tmpdir →
  ∃ r w', cb_download_run cfg sc call uid mode req w = (r, w') ∧
          requests_store w' = delete uid (requests_store w) ∧
          delete_message (chat_id call) nid ∈ log w' ∧
          rmtree tmpdir ∈ log w' ∧
          (on_rmtree sc = None →
             (tmpdir ∉ dirs w') ∧
             ∀ f, f ∈ files w' → parent (f_path f) ≠ tmpdir) ∧
          (on_rmtree sc ≠ None → tmpdir ∈ dirs w').
Proof.
  intros Hn Hm. rewrite (cb_download_run_start _ _ _ _ _ _ _ _ Hn Hm).
  unfold try_finally.
  pose proof (same_ledger_guarded_download sc call (req_url req) mode tmpdir
                (run_start call mode tmpdir w)) as Hk.
  destruct (try_except _ _ (run_start call mode tmpdir w)) as [r w1].
  destruct Hk as [Hs Hd]. simpl in Hs, Hd.
  assert (tmpdir ∈ dirs w1) as Hin.
  { rewrite Hd. apply elem_of_union_l. by apply elem_of_singleton. }
  destruct (cleanup_spec sc call nid tmpdir uid w1 Hin)
    as (w2 & -> & Hs2 & Hl2 & Hok & Hko).
  exists r, w2. split; [done|]. split_and!.
  - by rewrite Hs2, Hs.
  - rewrite Hl2. apply elem_of_app. right. apply list_elem_of_here.
  - rewrite Hl2. apply elem_of_app. right.
    apply list_elem_of_further, list_elem_of_here.
  - done.
  - intros Hr. destruct (Hko Hr) as [-> _]. done.
Qed.

End RunFacts.

(** ** Cleanup after a download *)

(** C2, as the code has it.  When a callback resolves a ledger entry, its
    "Starting download" answer and its notice are accepted and the scratch
    directory is created, then whatever the download does (success, size
    rejection or any exception) the handler ends with the identifier no
    longer in the request store, having asked the transport to delete the
    notice and the system to remove the scratch directory; the directory and
    the files in it are gone when that removal does not raise. *)
Theorem download_cleanup_guaranteed (U : Unicode) (cfg : Config)
    (sc : DownloadScenario) (call : CallbackQuery) (w : World)
    (v uid mode tmpdir : str) (req : Request) (nid : Z) :
  split 0x7C%N 2 (data call) = [v; uid; mode] →
  requests_store w !! uid = Some req →
  on_answer sc = None →
  on_notify sc = inr nid →
  on_mkdtemp sc = inr tmpdir →
  ∃ r w',
    cb_download cfg sc call w = (r, w') ∧
    requests_store w' !! uid = None ∧
    delete_message (chat_id call) nid ∈ log w' ∧
    rmtree tmpdir ∈ log w' ∧
    (on_rmtree sc = None →
       (tmpdir ∉ dirs w') ∧ ∀ f, f ∈ files w' → parent (f_path f) ≠ tmpdir).
Proof.
  intros Hs Hu Ha Hn Hm. unfold cb_download.
  rewrite (bind_Ok _ _ _ (Some (uid, mode, req))
             (log_call (answer_callback_query (call_id call) starting_download) w));
    [|by rewrite (cb_download_lookup_resolved _ _ _ _ _ _ _ Hs Hu), Ha].
  destruct (cb_download_run_cleans cfg sc call uid mode req
              (log_call (answer_callback_query (call_id call) starting_download) w)
              nid tmpdir Hn Hm)
    as (r & w' & E & Hst & Hdel & Hrm & Hok & _).
  exists r, w'. split; [done|]. split_and!; [|done..].
  rewrite Hst. apply lookup_delete_eq.
Qed.

Lemma download_cleanup_guaranteed_witness :
  ∃ r w',
    @cb_download ascii_tables (load_config None) sample_ok sample_call
      sample_world = (r, w') ∧
    requests_store w' !! sample_uid = None ∧
    delete_message 42 7 ∈ log w' ∧
    rmtree sample_tmpdir ∈ log w' ∧
    (on_rmtree sample_ok = None →
       (sample_tmpdir ∉ dirs w') ∧
       ∀ f, f ∈ files w' → parent (f_path f) ≠ sample_tmpdir).
Proof.
  apply (download_cleanup_guaranteed ascii_tables (load_config None) sample_ok
           sample_call sample_world (cp "download") sample_uid (cp "video")
           sample_tmpdir sample_request 7);
    vm_compute; reflexivity.
Defined.

(** C2, as stated, fails: when the removal of the scratch directory raises,
    the exception is swallowed and the directory is still there after the
    handler; and when the notice cannot be sent, the handler stops before its
    guarded block and the identifier is still in the request store. *)
Lemma scratch_directory_survives_failed_removal :
  sample_tmpdir ∈
    dirs (snd (@cb_download ascii_tables (load_config None)
                 sample_rmtree_fails sample_call sample_world)) ∧
  requests_store
    (snd (@cb_download ascii_tables (load_config None)
            sample_notify_fails sample_call sample_world)) !! sample_uid
  = Some sample_request.
Proof.
  split.
  - apply (bool_decide_unpack _). vm_compute. exact I.
  - vm_compute. reflexivity.
Qed.

(** ** At-most-once consumption *)

(** C1, as the code has it.  The ledger lookup of a callback leaves the
    request store as it is, so a second callback carrying the same identifier
    (with the same or another mode) whose turn comes after that lookup
    resolves the same entry; the entry is deleted by the cleanup that ends the
    first callback's download (reached once its notice is sent and its
    scratch directory made), and a callback carrying that identifier handled
    after that is answered "Request expired. Send link again." and does
    nothing else. *)
Theorem lookup_keeps_entry_until_cleanup (U : Unicode) (cfg : Config)
    (sc : DownloadScenario) (call : CallbackQuery) (w w1 : World)
    (uid mode : str) (req : Request) :
  thread_step cfg (Queued sc call) w = (Downloading sc call uid mode req, w1) →
  requests_store w1 = requests_store w ∧
  (∀ sc2 call2 v2 mode2,
     split 0x7C%N 2 (data call2) = [v2; uid; mode2] →
     on_answer sc2 = None →
     fst (thread_step cfg (Queued sc2 call2) w1)
     = Downloading sc2 call2 uid mode2 req) ∧
  (∀ nid tmpdir, on_notify sc = inr nid → on_mkdtemp sc = inr tmpdir →
     let w2 := snd (thread_step cfg (Downloading sc call uid mode req) w1) in
     requests_store w2 !! uid = None ∧
     ∀ sc2 call2 v2 mode2,
       split 0x7C%N 2 (data call2) = [v2; uid; mode2] →
       thread_step cfg (Queued sc2 call2) w2 =
         (Finished,
          {| requests_store := requests_store w2; dirs := dirs w2;
             files := files w2;
             log := log w2
                    ++ [answer_callback_query (call_id call2)
                          (cp "Request expired. Send link again.")] |})).
Proof.
  intros Hstep. simpl in Hstep.
  destruct (cb_download_lookup sc call w) as [[[[[u md] rq]|]|e] w0] eqn:E;
    try done.
  injection Hstep as -> -> -> ->.
  apply cb_download_lookup_inv in E as ([v Hs] & Hu & Ha & ->).
  split_and!.
  - done.
  - intros sc2 call2 v2 mode2 Hs2 Ha2. simpl.
    rewrite (cb_download_lookup_resolved sc2 call2 _ v2 uid mode2 req Hs2),
      Ha2; done.
  - intros nid tmpdir Hn Hm. simpl.
    destruct (cb_download_run_cleans cfg sc call uid mode req
                (log_call (answer_callback_query (call_id call)
                             starting_download) w) nid tmpdir Hn Hm)
      as (r & w' & -> & Hst & _). simpl.
    assert (requests_store w' !! uid = None) as Hnone
      by (rewrite Hst; apply lookup_delete_eq).
    split; [done|]. intros sc2 call2 v2 mode2 Hs2.
    rewrite (cb_download_lookup_expired sc2 call2 _ v2 uid mode2 Hs2 Hnone).
    by destruct (on_answer sc2).
Qed.

Lemma lookup_keeps_entry_until_cleanup_witness :
  let w1 := log_call (answer_callback_query (cp "cb1") starting_download)
              sample_world in
  requests_store w1 = requests_store sample_world ∧
  fst (@thread_step ascii_tables (load_config None)
         (Queued sample_ok2 sample_call_audio) w1)
  = Downloading sample_ok2 sample_call_audio sample_uid (cp "audio")
      sample_request.
Proof.
  intros w1.
  destruct (lookup_keeps_entry_until_cleanup ascii_tables (load_config None)
              sample_ok sample_call sample_world w1 sample_uid (cp "video")
              sample_request) as (Hst & Hsecond & _).
  - vm_compute. reflexivity.
  - split; [exact Hst|].
    apply (Hsecond sample_ok2 sample_call_audio (cp "download") (cp "audio"));
      reflexivity.
Defined.

(** C1, as stated, fails: with two callbacks carrying the same identifier,
    when the second takes its turn after the first has looked the entry up
    (and before the first has finished), both resolve the entry, and both
    downloads run: no "Request expired" answer is given. *)
Lemma second_callback_resolves_during_download :
  let pool := [Queued sample_ok sample_call; Queued sample_ok2 sample_call2] in
  fst (@run_schedule ascii_tables (load_config None) [0; 1] pool sample_world)
  = [Downloading sample_ok sample_call sample_uid (cp "video") sample_request;
     Downloading sample_ok2 sample_call2 sample_uid (cp "video") sample_request]
  ∧
  log (snd (@run_schedule ascii_tables (load_config None) [0; 1; 0; 1] pool
              sample_world))
  = [answer_callback_query (cp "cb1") starting_download;
     answer_callback_query (cp "cb2") starting_download;
     send_message 42 (downloading_text (cp "video")) false None;
     mkdtemp (cp "savemedia_");
     ydl_download (cp "https://youtu.be/abc123") sample_tmpdir false;
     send_video 42 {| parent := sample_tmpdir; name := cp "clip.mp4" |}
       (Some (cp "clip"));
     delete_message 42 7;
     rmtree sample_tmpdir;
     send_message 42 (downloading_text (cp "video")) false None;
     mkdtemp (cp "savemedia_");
     ydl_download (cp "https://youtu.be/abc123") sample_tmpdir2 false;
     send_video 42 {| parent := sample_tmpdir2; name := cp "clip.mp4" |}
       (Some (cp "clip"));
     delete_message 42 8;
     rmtree sample_tmpdir2].
Proof. split; vm_compute; reflexivity. Qed.

(** ** Size check and delivery *)

Section DeliveryFacts.
Context `{Unicode}.
Variable cfg : Config.

Lemma download_and_send_too_big sc call url mode tmpdir w filepath info w1 f :
  download_with_yt sc url tmpdir (bool_decide (mode = cp "audio")) w
  = (Ok (filepath, info), w1) →
  lookup_file filepath w1 = Some f →
  (inject_Z (MAX_FILESIZE_MB cfg) < size_mb f)%Q →
  download_and_send cfg sc call url mode tmpdir w =
    (result_of (on_send_too_large sc),
     log_call (send_message (chat_id call) (too_large_text (Q_int (size_mb f)))
                 false None) w1).
Proof.
  intros Hdl Hf Hbig. unfold download_and_send.
  rewrite (bind_Ok _ _ _ _ _ Hdl).
  rewrite (bind_Ok _ _ _ _ _ (file_too_big_Some cfg _ _ _ Hf)).
  destruct (Qle_bool (size_mb f) (inject_Z (MAX_FILESIZE_MB cfg))) eqn:E.
  - apply Qle_bool_iff in E. by apply Qle_not_lt in E.
  - simpl. rewrite (bind_Ok _ _ _ _ _ (stat_Some _ _ _ Hf)).
    apply external_unit.
Qed.

Lemma download_and_send_missing sc call url mode tmpdir w filepath info w1 :
  download_with_yt sc url tmpdir (bool_decide (mode = cp "audio")) w
  = (Ok (filepath, info), w1) →
  lookup_file filepath w1 = None →
  download_and_send cfg sc call url mode tmpdir w =
    (Raise (no_such_file filepath), w1).
Proof.
  intros Hdl Hf. unfold download_and_send.
  rewrite (bind_Ok _ _ _ _ _ Hdl).
  rewrite (bind_Ok _ _ _ _ _ (file_too_big_None cfg _ _ Hf)).
  by rewrite (bind_Raise _ _ _ _ _ (stat_None _ _ Hf)).
Qed.

Lemma download_and_send_deliver sc call url mode tmpdir w filepath info w1 f :
  download_with_yt sc url tmpdir (bool_decide (mode = cp "audio")) w
  = (Ok (filepath, info), w1) →
  lookup_file filepath w1 = Some f →
  (size_mb f <= inject_Z (MAX_FILESIZE_MB cfg))%Q →
  download_and_send cfg sc call url mode tmpdir w =
    (result_of (on_send_media sc),
     log_call
       (if bool_decide (mode = cp "audio")
           || bool_decide (str_lower (suffix filepath) ∈ audio_extensions)
        then send_audio (chat_id call) filepath
               (dict_get_default (title info) (cp "File"))
        else send_video (chat_id call) filepath
               (dict_get_default (title info) (cp "File")))
       w1).
Proof.
  intros Hdl Hf Hsmall. unfold download_and_send.
  rewrite (bind_Ok _ _ _ _ _ Hdl).
  rewrite (bind_Ok _ _ _ _ _ (file_too_big_Some cfg _ _ _ Hf)).
  apply Qle_bool_iff in Hsmall. rewrite Hsmall. simpl.
  assert (open_rb filepath w1 = (Ok tt, w1)) as Hopen
    by (unfold open_rb; by rewrite (bind_Ok _ _ _ _ _ (stat_Some _ _ _ Hf))).
  destruct (_ || _); rewrite (bind_Ok _ _ _ _ _ Hopen); apply external_unit.
Qed.

Lemma logged_download_with_yt Q sc url outdir audio :
  Q (ydl_download url outdir audio) →
  preserves (logged Q) (download_with_yt sc url outdir audio).
Proof.
  intros HQ w. destruct (download_with_yt sc url outdir audio w) as [r w1] eqn:E.
  apply download_with_yt_log in E as [_ E]. exists [ydl_download url outdir audio].
  split; [done|]. by repeat constructor.
Qed.

Lemma no_document_download_and_send sc call url mode tmpdir :
  preserves (logged not_send_document)
    (download_and_send cfg sc call url mode tmpdir).
Proof.
  pose proof (logged_refl not_send_document) as Hr.
  pose proof (logged_trans not_send_document) as Ht.
  unfold download_and_send.
  apply (preserves_bind _ Ht); [by apply logged_download_with_yt|].
  intros [filepath info].
  apply (preserves_bind _ Ht); [apply (preserves_file_too_big _ Hr Ht)|].
  intros [].
  - apply (preserves_bind _ Ht); [apply (preserves_stat _ Hr)|].
    intros f. by apply logged_external.
  - destruct (_ || _);
      (apply (preserves_bind _ Ht); [apply (preserves_open_rb _ Hr Ht)|]);
      intros _; by apply logged_external.
Qed.

Lemma no_document_cb_download_run sc call uid mode req :
  preserves (logged not_send_document) (cb_download_run cfg sc call uid mode req).
Proof.
  pose proof (logged_refl not_send_document) as Hr.
  pose proof (logged_trans not_send_document) as Ht.
  unfold cb_download_run.
  apply (preserves_bind _ Ht); [by apply logged_external|]. intros notify.
  apply (preserves_bind _ Ht).
  { unfold tempfile_mkdtemp.
    apply (preserves_bind _ Ht); [by apply logged_external|]. intros d.
    apply (preserves_bind _ Ht); [by apply logged_modify_silent|]. intros _.
    apply (preserves_ret _ Hr). }
  intros tmpdir. apply (preserves_try_finally _ Ht).
  - apply (preserves_try_except _ Ht);
      [apply no_document_download_and_send|].
    intros e. by apply logged_external.
  - unfold cleanup.
    apply (preserves_bind _ Ht).
    { apply (preserves_try_pass _ Hr Ht). by apply logged_external. }
    intros _. apply (preserves_bind _ Ht).
    { apply (preserves_try_pass _ Hr Ht). unfold shutil_rmtree.
      apply (preserves_bind _ Ht); [apply (preserves_get_world _ Hr)|].
      intros w0. case_decide; [|apply (preserves_raise _ Hr)].
      apply (preserves_bind _ Ht); [by apply logged_external|]. intros _.
      apply (preserves_bind _ Ht); [by apply logged_modify_silent|]. intros _.
      by apply logged_modify_silent. }
    intros _. unfold try_pass_KeyError, del_request.
    apply (preserves_try_except _ Ht).
    + apply (preserves_bind _ Ht); [apply (preserves_get_world _ Hr)|].
      intros w0. destruct (requests_store w0 !! uid);
        [by apply logged_modify_silent|apply (preserves_raise _ Hr)].
    + intros []; first [apply (preserves_ret _ Hr)|apply (preserves_raise _ Hr)].
Qed.

Lemma no_document_cb_download sc call :
  preserves (logged not_send_document) (cb_download cfg sc call).
Proof.
  pose proof (logged_refl not_send_document) as Hr.
  pose proof (logged_trans not_send_document) as Ht.
  unfold cb_download. apply (preserves_bind _ Ht).
  - unfold cb_download_lookup.
    destruct (split 0x7C%N 2 (data call)) as [|a [|b [|c [|d l]]]];
      try (apply (preserves_bind _ Ht); [by apply logged_external|];
           intros _; apply (preserves_ret _ Hr)).
    apply (preserves_bind _ Ht); [apply (preserves_get_world _ Hr)|].
    intros w0. destruct (requests_store w0 !! b);
      (apply (preserves_bind _ Ht); [by apply logged_external|]);
      intros _; apply (preserves_ret _ Hr).
  - intros [[[uid mode] req]|];
      [apply no_document_cb_download_run|apply (preserves_ret _ Hr)].
Qed.

End DeliveryFacts.

Section TraceFacts.
Context `{Unicode}.
Variable cfg : Config.

Lemma cb_download_trace sc call w v uid mode req nid tmpdir r1 w1 :
  split 0x7C%N 2 (data call) = [v; uid; mode] →
  requests_store w !! uid = Some req →
  on_answer sc = None →
  on_notify sc = inr nid →
  on_mkdtemp sc = inr tmpdir →
  download_and_send cfg sc call (req_url req) mode tmpdir
    (download_start call mode tmpdir w) = (r1, w1) →
  ∃ r w',
    cb_download cfg sc call w = (r, w') ∧
    log w' = log w1 ++ failure_report call r1
             ++ [delete_message (chat_id call) nid; rmtree tmpdir].
Proof.
  intros Hs Hu Ha Hn Hm Hbody. unfold cb_download.
  rewrite (bind_Ok _ _ _ (Some (uid, mode, req))
             (log_call (answer_callback_query (call_id call) starting_download) w));
    [|by rewrite (cb_download_lookup_resolved _ _ _ _ _ _ _ Hs Hu), Ha].
  rewrite (cb_download_run_start cfg _ _ _ _ _ _ _ _ Hn Hm).
  fold (download_start call mode tmpdir w).
  pose proof (same_ledger_download_and_send cfg sc call (req_url req) mode tmpdir
                (download_start call mode tmpdir w)) as [_ Hd].
  rewrite Hbody in Hd. simpl in Hd.
  unfold try_finally, try_except. rewrite Hbody.
  destruct r1 as [[]|e]; simpl.
  - destruct (cleanup_spec sc call nid tmpdir uid w1) as (w2 & -> & _ & Hl & _).
    { rewrite Hd. apply elem_of_union_l. by apply elem_of_singleton. }
    by eauto.
  - rewrite external_unit.
    destruct (cleanup_spec sc call nid tmpdir uid
                (log_call (send_message (chat_id call) (download_failed_text e)
                             false None) w1)) as (w2 & -> & _ & Hl & _).
    { simpl. rewrite Hd. apply elem_of_union_l. by apply elem_of_singleton. }
    exists (result_of (on_send_failed sc)), w2. split; [done|].
    rewrite Hl. simpl. by rewrite <- app_assoc.
Qed.

End TraceFacts.

(** C3, as the code has it.  The size in megabytes is the quotient of the
    byte size by 1024 x 1024 computed in double precision, which is the exact
    quotient for every file below 2^53 bytes.  When that quotient exceeds the
    configured ceiling (MAX_FILESIZE_MB, 1900 by default), the handler sends
    the message "File too large (N MB)." where N is the integer part of the
    quotient, written in decimal, and none of the calls it makes is a media
    send. *)
Theorem oversized_artifact_rejected (U : Unicode) (cfg : Config)
    (sc : DownloadScenario) (call : CallbackQuery) (w w1 : World)
    (v uid mode tmpdir : str) (req : Request) (nid : Z)
    (filepath : Path) (info : Info) (f : File) :
  split 0x7C%N 2 (data call) = [v; uid; mode] →
  requests_store w !! uid = Some req →
  on_answer sc = None →
  on_notify sc = inr nid →
  on_mkdtemp sc = inr tmpdir →
  download_with_yt sc (req_url req) tmpdir (bool_decide (mode = cp "audio"))
    (download_start call mode tmpdir w) = (Ok (filepath, info), w1) →
  lookup_file filepath w1 = Some f →
  (inject_Z (MAX_FILESIZE_MB cfg) < round53 (st_size f) # 1048576)%Q →
  MAX_FILESIZE_MB (load_config None) = 1900%Z ∧
  ((0 ≤ st_size f < 2 ^ 53)%Z →
     round53 (st_size f) = st_size f ∧
     Q_int (round53 (st_size f) # 1048576) = (st_size f `div` 1048576)%Z) ∧
  ∃ r w' extra,
    cb_download cfg sc call w = (r, w') ∧
    log w' = log w ++ extra ∧
    send_message (chat_id call)
      ([0x26A0; 0xFE0F]%N ++ cp " File too large ("
       ++ cp (NilZero.string_of_int
                (Z.to_int (Q_int (round53 (st_size f) # 1048576))))
       ++ cp " MB).")
      false None ∈ extra ∧
    Forall (fun c => is_media_send c = false) extra.
Proof.
  intros Hs Hu Ha Hn Hm Hdl Hf Hbig.
  split; [done|]. split.
  { intros Hsmall. split; [by apply round53_small|].
    by apply (Q_int_size_mb f). }
  pose proof (download_and_send_too_big cfg sc call _ _ _ _ _ _ _ _ Hdl Hf Hbig)
    as Hbody.
  destruct (cb_download_trace cfg sc call w v uid mode req nid tmpdir _ _
              Hs Hu Ha Hn Hm Hbody) as (r & w' & E & Hl).
  apply download_with_yt_log in Hdl as [_ Hl1].
  exists r, w',
    ([answer_callback_query (call_id call) starting_download;
      send_message (chat_id call) (downloading_text mode) false None;
      mkdtemp (cp "savemedia_");
      ydl_download (req_url req) tmpdir (bool_decide (mode = cp "audio"));
      send_message (chat_id call) (too_large_text (Q_int (size_mb f))) false
        None]
     ++ failure_report call (result_of (on_send_too_large sc))
     ++ [delete_message (chat_id call) nid; rmtree tmpdir]).
  split; [done|]. split.
  { rewrite Hl. simpl. rewrite Hl1. simpl. by rewrite <- !app_assoc. }
  split.
  - apply elem_of_app. left. apply list_elem_of_lookup. by exists 4.
  - apply Forall_app. split; [by repeat constructor|].
    apply Forall_app. split; [|by repeat constructor].
    destruct (on_send_too_large sc); by repeat constructor.
Qed.

Lemma oversized_artifact_rejected_witness :
  ∃ r w' extra,
    @cb_download ascii_tables (load_config None) sample_too_big sample_call
      sample_world = (r, w') ∧
    log w' = log sample_world ++ extra ∧
    send_message 42
      ([0x26A0; 0xFE0F]%N ++ cp " File too large (3072 MB).") false None
      ∈ extra ∧
    Forall (fun c => is_media_send c = false) extra.
Proof.
  refine (proj2 (proj2
    (oversized_artifact_rejected ascii_tables (load_config None) sample_too_big
       sample_call sample_world _ (cp "download") sample_uid (cp "video")
       sample_tmpdir sample_request 7
       {| parent := sample_tmpdir; name := cp "clip.mp4" |} sample_info
       (sample_file "clip.mp4" 3221225472) _ _ _ _ _ _ _ _)));
    try (vm_compute; reflexivity).
Defined.

(** C3, as stated, fails from 2^53 bytes on: with a ceiling of 2^33
    megabytes, a file of 2^53 + 1 bytes has a size over 1024 x 1024 above the
    ceiling, but the double nearest to that quotient is the ceiling itself;
    the size check answers False and the file is sent as a video. *)
Lemma oversized_artifact_sent_after_rounding :
  (inject_Z (MAX_FILESIZE_MB huge_config) < 9007199254740993 # 1048576)%Q ∧
  fst (file_too_big huge_config
         {| parent := sample_tmpdir; name := cp "clip.mp4" |}
         (set_files (fun _ => [sample_file "clip.mp4" 9007199254740993])
            empty_world))
  = Ok false ∧
  log (snd (@cb_download ascii_tables huge_config sample_huge sample_call
              sample_world))
  = sample_trace
      [send_video 42 {| parent := sample_tmpdir; name := cp "clip.mp4" |}
         (Some (cp "clip"))].
Proof. split_and!; vm_compute; reflexivity. Qed.

(** C9, as the code has it.  An artifact that passes the size check is
    delivered by one of two sends: the audio send when the requested mode is
    "audio" or the lower-cased extension is one of .mp3, .m4a, .opus, .ogg,
    and the video send in every other case; the caption is the title of the
    metadata, "File" when there is no title key and none when the title is
    None.  No call made by the download handler is a document send. *)
Theorem delivery_is_audio_or_video (U : Unicode) (cfg : Config) :
  (∀ sc call w,
     logged not_send_document w (snd (cb_download cfg sc call w))) ∧
  (∀ (sc : DownloadScenario) (call : CallbackQuery) (w w1 : World)
     (v uid mode tmpdir : str) (req : Request) (nid : Z)
     (filepath : Path) (info : Info) (f : File),
     split 0x7C%N 2 (data call) = [v; uid; mode] →
     requests_store w !! uid = Some req →
     on_answer sc = None →
     on_notify sc = inr nid →
     on_mkdtemp sc = inr tmpdir →
     download_with_yt sc (req_url req) tmpdir (bool_decide (mode = cp "audio"))
       (download_start call mode tmpdir w) = (Ok (filepath, info), w1) →
     lookup_file filepath w1 = Some f →
     (size_mb f <= inject_Z (MAX_FILESIZE_MB cfg))%Q →
     let caption := match title info with
                    | Missing => Some (cp "File")
                    | Null => None
                    | Text s => Some s
                    end in
     ∃ r w',
       cb_download cfg sc call w = (r, w') ∧
       log w' =
         log w
         ++ [answer_callback_query (call_id call) starting_download;
             send_message (chat_id call) (downloading_text mode) false None;
             mkdtemp (cp "savemedia_");
             ydl_download (req_url req) tmpdir (bool_decide (mode = cp "audio"));
             if bool_decide (mode = cp "audio")
                || bool_decide (str_lower (suffix filepath)
                                ∈ [cp ".mp3"; cp ".m4a"; cp ".opus"; cp ".ogg"])
             then send_audio (chat_id call) filepath caption
             else send_video (chat_id call) filepath caption]
         ++ failure_report call (result_of (on_send_media sc))
         ++ [delete_message (chat_id call) nid; rmtree tmpdir]).
Proof.
  split; [intros sc call w; apply no_document_cb_download|].
  intros sc call w w1 v uid mode tmpdir req nid filepath info f
    Hs Hu Ha Hn Hm Hdl Hf Hsmall caption.
  pose proof (download_and_send_deliver cfg sc call _ _ _ _ _ _ _ _ Hdl Hf Hsmall)
    as Hbody.
  destruct (cb_download_trace cfg sc call w v uid mode req nid tmpdir _ _
              Hs Hu Ha Hn Hm Hbody) as (r & w' & E & Hl).
  apply download_with_yt_log in Hdl as [_ Hl1].
  exists r, w'. split; [done|].
  rewrite Hl. simpl. rewrite Hl1. simpl. rewrite <- !app_assoc.
  subst caption. unfold dict_get_default, audio_extensions.
  by destruct (title info).
Qed.

Lemma delivery_is_audio_or_video_witness :
  (∃ r w',
     @cb_download ascii_tables (load_config None) sample_ogg sample_call
       sample_world = (r, w') ∧
     log w' =
       sample_trace
         [send_audio 42 {| parent := sample_tmpdir; name := cp "voice.ogg" |}
            (Some (cp "clip"))]) ∧
  (∃ r w',
     @cb_download ascii_tables (load_config None) sample_null_title sample_call
       sample_world = (r, w') ∧
     log w' =
       sample_trace
         [send_video 42 {| parent := sample_tmpdir; name := cp "clip.mp4" |}
            None]).
Proof.
  split.
  - refine (proj2
      (delivery_is_audio_or_video ascii_tables (load_config None))
      sample_ogg sample_call sample_world _ (cp "download") sample_uid
      (cp "video") sample_tmpdir sample_request 7%Z
      {| parent := sample_tmpdir; name := cp "voice.ogg" |} sample_info
      (sample_file "voice.ogg" 5000000) _ _ _ _ _ _ _ _);
      try (vm_compute; reflexivity).
    vm_compute. discriminate.
  - refine (proj2
      (delivery_is_audio_or_video ascii_tables (load_config None))
      sample_null_title sample_call sample_world _ (cp "download") sample_uid
      (cp "video") sample_tmpdir sample_request 7%Z
      {| parent := sample_tmpdir; name := cp "clip.mp4" |}
      {| title := Null; description := None; thumbnail := None;
         duration := None |}
      (sample_file "clip.mp4" 5000000) _ _ _ _ _ _ _ _);
      try (vm_compute; reflexivity).
    vm_compute. discriminate.
Defined.

(** C9, as stated, fails: a document-like artifact (a PDF) downloaded in
    video mode is delivered by the video send, not by a document send. *)
Lemma pdf_artifact_sent_as_video :
  log (snd (@cb_download ascii_tables (load_config None) sample_pdf
              sample_call sample_world))
  = sample_trace
      [send_video 42 {| parent := sample_tmpdir; name := cp "notes.pdf" |}
         (Some (cp "clip"))].
Proof. vm_compute. reflexivity. Qed.

(** C10, as the code has it.  For a path whose stat raises, [file_too_big]
    returns True; the handler then enters the size-rejection branch, whose
    message needs the size and stats the file again, which raises again: the
    user is sent the "Download failed" message with that error, no "File too
    large" message and no media. *)
Theorem missing_artifact_reported_as_failure (U : Unicode) (cfg : Config) :
  (∀ path w, lookup_file path w = None →
             file_too_big cfg path w = (Ok true, w)) ∧
  (∀ (sc : DownloadScenario) (call : CallbackQuery) (w w1 : World)
     (v uid mode tmpdir : str) (req : Request) (nid : Z)
     (filepath : Path) (info : Info),
     split 0x7C%N 2 (data call) = [v; uid; mode] →
     requests_store w !! uid = Some req →
     on_answer sc = None →
     on_notify sc = inr nid →
     on_mkdtemp sc = inr tmpdir →
     download_with_yt sc (req_url req) tmpdir (bool_decide (mode = cp "audio"))
       (download_start call mode tmpdir w) = (Ok (filepath, info), w1) →
     lookup_file filepath w1 = None →
     ∃ r w',
       cb_download cfg sc call w = (r, w') ∧
       log w' =
         log w
         ++ [answer_callback_query (call_id call) starting_download;
             send_message (chat_id call) (downloading_text mode) false None;
             mkdtemp (cp "savemedia_");
             ydl_download (req_url req) tmpdir (bool_decide (mode = cp "audio"));
             send_message (chat_id call)
               (download_failed_text (no_such_file filepath)) false None;
             delete_message (chat_id call) nid;
             rmtree tmpdir]).
Proof.
  split; [intros path w; apply file_too_big_None|].
  intros sc call w w1 v uid mode tmpdir req nid filepath info
    Hs Hu Ha Hn Hm Hdl Hf.
  pose proof (download_and_send_missing cfg sc call _ _ _ _ _ _ _ Hdl Hf)
    as Hbody.
  destruct (cb_download_trace cfg sc call w v uid mode req nid tmpdir _ _
              Hs Hu Ha Hn Hm Hbody) as (r & w' & E & Hl).
  apply download_with_yt_log in Hdl as [_ Hl1].
  exists r, w'. split; [done|].
  rewrite Hl. simpl. rewrite Hl1. simpl. by rewrite <- !app_assoc.
Qed.

Lemma missing_artifact_reported_as_failure_witness :
  ∃ r w',
    @cb_download ascii_tables (load_config None) sample_missing sample_call
      sample_world = (r, w') ∧
    log w' =
      sample_trace
        [send_message 42
           (download_failed_text
              (no_such_file {| parent := sample_tmpdir; name := cp "clip.mp4" |}))
           false None].
Proof.
  refine (proj2
    (missing_artifact_reported_as_failure ascii_tables (load_config None))
    sample_missing sample_call sample_world _ (cp "download") sample_uid
    (cp "video") sample_tmpdir sample_request 7%Z
    {| parent := sample_tmpdir; name := cp "clip.mp4" |} sample_info
    _ _ _ _ _ _ _);
    vm_compute; reflexivity.
Defined.

(** C10, as stated, fails: when the engine reports an output file that does
    not exist and the scratch directory is empty, [file_too_big] returns
    True, yet what the user is sent is the "Download failed" message; no
    "File too large" message is sent. *)
Lemma missing_artifact_not_reported_as_too_large :
  let w' := snd (@cb_download ascii_tables (load_config None) sample_missing
                   sample_call sample_world) in
  fst (file_too_big (load_config None)
         {| parent := sample_tmpdir; name := cp "clip.mp4" |} sample_world)
  = Ok true ∧
  send_message 42
    (download_failed_text
       (no_such_file {| parent := sample_tmpdir; name := cp "clip.mp4" |}))
    false None ∈ log w' ∧
  ∀ mb, send_message 42 (too_large_text mb) false None ∉ log w'.
Proof.
  intros w'.
  assert (log w' =
    sample_trace
      [send_message 42
         (download_failed_text
            (no_such_file {| parent := sample_tmpdir; name := cp "clip.mp4" |}))
         false None]) as ->
    by (vm_compute; reflexivity).
  split_and!.
  - vm_compute. reflexivity.
  - apply list_elem_of_lookup. by exists 4.
  - intros mb Hin. unfold sample_trace in Hin. simpl in Hin.
    repeat (apply elem_of_cons in Hin as [Hin|Hin]; [discriminate Hin|]).
    by apply elem_of_nil in Hin.
Qed.

(** ** Link classification *)

Lemma startswith_app p x : startswith p (p ++ x) = true.
Proof.
  induction p as [|a p IH]; simpl; [done|]. by rewrite N.eqb_refl.
Qed.

Lemma startswith_true p s : startswith p s = true → s = p ++ drop (length p) s.
Proof.
  revert s. induction p as [|a p IH]; intros [|b s]; simpl; try done.
  intros [->%N.eqb_eq Hp]%andb_prop. f_equal. by apply IH.
Qed.

Lemma contains_spec sub s :
  contains sub s = true ↔ ∃ pre post, s = pre ++ sub ++ post.
Proof.
  split.
  - induction s as [|c r IH]; simpl.
    + rewrite orb_false_r. intros Hp%startswith_true. by exists [], (drop (length sub) []).
    + intros [Hp%startswith_true|(pre & post & ->)%IH]%orb_prop.
      * by exists [], (drop (length sub) (c :: r)).
      * by exists (c :: pre), post.
  - intros (pre & post & ->). induction pre as [|c pre IH]; simpl.
    + pose proof (startswith_app sub post) as Hp.
      destruct (sub ++ post); simpl; by rewrite Hp.
    + by rewrite IH, orb_true_r.
Qed.

Lemma URL_RE_scheme_Some scheme s u :
  URL_RE_scheme scheme s = Some u →
  ∃ body post,
    u = scheme ++ body ∧ s = u ++ post ∧ body ≠ [] ∧
    Forall (fun c => isspace c = false) body ∧
    ∀ c, head post = Some c → isspace c = true.
Proof.
  unfold URL_RE_scheme. destruct (startswith scheme s) eqn:Hp; [|done].
  apply startswith_true in Hp. set (rest := drop (length scheme) s) in *.
  destruct (take_while (fun c => negb (isspace c)) rest) as [|b body] eqn:Hb;
    [done|].
  intros [= <-]. exists (b :: body), (drop_while (fun c => negb (isspace c)) rest).
  split_and!; [done| |done| |].
  - rewrite <- app_assoc, <- Hb, take_drop_while. done.
  - rewrite <- Hb.
    eapply Forall_impl; [apply take_while_Forall|].
    simpl. intros c Hc. by apply negb_true_iff.
  - intros c Hc%drop_while_head. by apply negb_false_iff.
Qed.

Lemma URL_RE_scheme_complete scheme body post :
  body ≠ [] → Forall (fun c => isspace c = false) body →
  URL_RE_scheme scheme (scheme ++ body ++ post) ≠ None.
Proof.
  intros Hne Hbody. unfold URL_RE_scheme.
  rewrite startswith_app, drop_app_length.
  destruct body as [|b body]; [done|]. simpl.
  apply Forall_cons in Hbody as [-> _]. done.
Qed.

Lemma URL_RE_match_Some s u :
  URL_RE_match s = Some u →
  is_url u ∧ ∃ post, s = u ++ post ∧ ∀ c, head post = Some c → isspace c = true.
Proof.
  unfold URL_RE_match.
  destruct (URL_RE_scheme (cp "https://") s) as [u1|] eqn:E1.
  - intros [= <-].
    apply URL_RE_scheme_Some in E1 as (body & post & -> & -> & ? & ? & ?).
    split; [exists (cp "https://"), body; auto|by exists post].
  - intros (body & post & -> & -> & ? & ? & ?)%URL_RE_scheme_Some.
    split; [exists (cp "http://"), body; auto|by exists post].
Qed.

Lemma URL_RE_match_None s u post :
  URL_RE_match s = None → is_url u → s ≠ u ++ post.
Proof.
  unfold URL_RE_match. intros Hm (scheme & body & Hsch & -> & Hne & Hbody) ->.
  rewrite <- app_assoc in Hm.
  destruct Hsch as [-> | ->].
  - by destruct (URL_RE_scheme (cp "https://") (cp "https://" ++ body ++ post))
      eqn:E; [|apply URL_RE_scheme_complete in E].
  - destruct (URL_RE_scheme (cp "https://") (cp "http://" ++ body ++ post));
      [done|]. by apply URL_RE_scheme_complete in Hm.
Qed.

Lemma URL_RE_search_None s :
  URL_RE_search s = None ↔ ∀ pre u post, is_url u → s ≠ pre ++ u ++ post.
Proof.
  split.
  - induction s as [|c r IH]; simpl.
    + destruct (URL_RE_match []) eqn:E; [done|]. intros _ pre u post Hu Hs.
      destruct pre; [|done]. by eapply URL_RE_match_None.
    + destruct (URL_RE_match (c :: r)) eqn:E; [done|].
      intros Hr pre u post Hu Hs. destruct pre as [|x pre].
      * by eapply URL_RE_match_None.
      * injection Hs as -> ->. by eapply IH.
  - intros Hno. induction s as [|c r IH]; simpl.
    + destruct (URL_RE_match []) as [u|] eqn:E; [|done].
      apply URL_RE_match_Some in E as (Hu & post & Hs & _).
      by destruct (Hno [] u post).
    + destruct (URL_RE_match (c :: r)) as [u|] eqn:E.
      * apply URL_RE_match_Some in E as (Hu & post & Hs & _).
        by destruct (Hno [] u post).
      * apply IH. intros pre u post Hu ->. by eapply (Hno (c :: pre)).
Qed.

Lemma URL_RE_search_Some s u :
  URL_RE_search s = Some u →
  is_url u ∧
  ∃ pre post,
    s = pre ++ u ++ post ∧
    (∀ c, head post = Some c → isspace c = true) ∧
    ∀ pre1 u1 post1, is_url u1 → s = pre1 ++ u1 ++ post1 →
                     length pre ≤ length pre1.
Proof.
  revert u. induction s as [|c r IH]; intros u; simpl.
  - done.
  - destruct (URL_RE_match (c :: r)) as [u0|] eqn:E.
    + intros [= <-]. apply URL_RE_match_Some in E as (Hu & post & Hs & Hp).
      split; [done|]. exists [], post. split_and!; try done; intros; simpl; lia.
    + intros (Hu & pre & post & -> & Hp & Hleft)%IH. split; [done|].
      exists (c :: pre), post. split_and!; [done..|].
      intros pre1 u1 post1 Hu1 Hs. destruct pre1 as [|x pre1].
      * by destruct (URL_RE_match_None _ u1 post1 E Hu1).
      * injection Hs as -> Hs. simpl. apply le_n_S. by eapply Hleft.
Qed.

Section LinkFacts.
Context `{Unicode}.

Lemma probe_info_eq sc url w :
  probe_info sc url w =
    (Ok (match on_probe sc with inl _ => None | inr info => info end),
     log_call (ydl_probe url) w).
Proof. unfold probe_info, try_except, external. by destruct (on_probe sc). Qed.

Lemma same_ledger_send_card sc m msg thumb text kb :
  preserves same_ledger (send_card sc m msg thumb text kb).
Proof.
  unfold send_card. apply (preserves_bind _ same_ledger_trans).
  - apply (preserves_try_except _ same_ledger_trans).
    + destruct thumb; apply same_ledger_external.
    + intros _. apply same_ledger_external.
  - intros _. apply (preserves_try_pass _ same_ledger_refl same_ledger_trans).
    apply same_ledger_external.
Qed.

Lemma send_card_no_thumb sc m msg text kb w :
  ∃ w', send_card sc m msg None text kb w = (card_result sc, w') ∧
        log w' = log w
                 ++ card_calls sc (send_message (m_chat m) text true (Some kb))
                      (delete_message (m_chat m) msg).
Proof.
  unfold send_card, card_calls, card_result, bind, try_except.
  rewrite external_unit. destruct (on_send_text sc) as [e1|]; simpl.
  - rewrite external_unit. destruct (on_send_again sc) as [e2|]; simpl.
    + eexists. split; [done|]. simpl. by rewrite <- app_assoc.
    + rewrite try_pass_external. eexists. split; [done|]. simpl.
      by rewrite <- !app_assoc.
  - rewrite try_pass_external. eexists. split; [done|]. simpl.
    by rewrite <- !app_assoc.
Qed.

(** The two supported branches of [handle_links], once the "Fetching"
    notice is sent. *)
Lemma handle_links_supported sc m w url msg :
  extract_url (m_text m) = Some url →
  is_instagram url || is_youtube url = true →
  on_fetching sc = inr msg →
  let info := match on_probe sc with inl _ => None | inr i => i end in
  let uid := take 8 (on_uuid4 sc) in
  let insta := is_instagram url in
  let w1 :=
    set_store
      <[uid := {| req_url := url;
                  req_type := if insta then cp "instagram" else cp "youtube" |}]>
      (log_call (ydl_probe url)
         (log_call
            (send_message (m_chat m)
               (if insta then fetching_instagram else fetching_youtube)
               false None) w)) in
  handle_links sc m w =
    send_card sc m msg (thumb_of info)
      (if insta then instagram_text info else youtube_text info)
      (if insta then instagram_markup uid else youtube_markup uid) w1.
Proof.
  intros Hurl Hsup Hf. unfold handle_links. rewrite Hurl.
  destruct url as [|c r]; [done|].
  destruct (is_instagram (c :: r)) eqn:Hi.
  - unfold bind at 1. unfold external at 1. rewrite Hf.
    rewrite (bind_Ok _ _ _ _ _ (probe_info_eq _ _ _)). done.
  - simpl in Hsup. rewrite Hsup.
    unfold bind at 1. unfold external at 1. rewrite Hf.
    rewrite (bind_Ok _ _ _ _ _ (probe_info_eq _ _ _)). done.
Qed.

End LinkFacts.

Lemma is_url_nonempty u : is_url u → u ≠ [].
Proof. intros (scheme & body & [-> | ->] & -> & _). all: done. Qed.

Lemma extract_url_None t :
  extract_url (Some t) = None →
  ∀ pre u post, is_url u → t ≠ pre ++ u ++ post.
Proof.
  intros E. apply URL_RE_search_None. by destruct t.
Qed.

Lemma extract_url_Some text url :
  extract_url text = Some url →
  ∃ t pre post,
    text = Some t ∧ t = pre ++ url ++ post ∧ is_url url ∧
    (∀ c, head post = Some c → isspace c = true) ∧
    ∀ pre1 u1 post1, is_url u1 → t = pre1 ++ u1 ++ post1 →
                     length pre ≤ length pre1.
Proof.
  destruct text as [[|c t]|]; [done| |done]. unfold extract_url.
  intros (Hu & pre & post & Hs & Hp & Hleft)%URL_RE_search_Some.
  exists (c :: t), pre, post. by split_and!.
Qed.

Lemma is_instagram_spec url :
  is_instagram url = true
  ↔ occurs_in (cp "instagram.com") url ∨ occurs_in (cp "instagr.am") url.
Proof.
  unfold is_instagram, occurs_in. by rewrite orb_true_iff, !contains_spec.
Qed.

Lemma is_youtube_spec url :
  is_youtube url = true
  ↔ occurs_in (cp "youtube.com") url ∨ occurs_in (cp "youtu.be") url.
Proof.
  unfold is_youtube, occurs_in. by rewrite orb_true_iff, !contains_spec.
Qed.

(** C4.  The link handler decides in three ways, as a function of the text.
    Text in which the URL pattern matches nowhere has no extracted URL, and
    the reply is "Send a valid link."; otherwise the extracted URL is the
    leftmost match.  When "instagram.com" or "instagr.am" occurs in that URL,
    the request store gets the pair of the URL and the tag "instagram"; when
    neither does but "youtube.com" or "youtu.be" occurs in it, the pair of
    the URL and the tag "youtube" (in both cases once the "Fetching" notice
    is sent); and when none of the four occurs the only effect is the reply
    "Unsupported link. Send Instagram or YouTube public link.". *)
Theorem link_classification (U : Unicode) (sc : LinkScenario) (m : Message)
    (w : World) :
  match extract_url (m_text m) with
  | None =>
      (∀ t, m_text m = Some t →
            ∀ pre u post, is_url u → t ≠ pre ++ u ++ post) ∧
      handle_links sc m w =
        (result_of (on_reply sc),
         log_call (send_message (m_chat m) (cp "Send a valid link.") false None)
           w)
  | Some url =>
      (∃ t pre post,
         m_text m = Some t ∧ t = pre ++ url ++ post ∧ is_url url ∧
         (∀ c, head post = Some c → isspace c = true) ∧
         ∀ pre1 u1 post1, is_url u1 → t = pre1 ++ u1 ++ post1 →
                          length pre ≤ length pre1) ∧
      let instagram :=
        occurs_in (cp "instagram.com") url ∨ occurs_in (cp "instagr.am") url in
      let youtube :=
        occurs_in (cp "youtube.com") url ∨ occurs_in (cp "youtu.be") url in
      let stores tag :=
        ∀ msg, on_fetching sc = inr msg →
          requests_store (snd (handle_links sc m w)) =
            <[take 8 (on_uuid4 sc) := {| req_url := url; req_type := tag |}]>
              (requests_store w) in
      (instagram → stores (cp "instagram")) ∧
      (¬ instagram → youtube → stores (cp "youtube")) ∧
      (¬ instagram → ¬ youtube →
         handle_links sc m w =
           (result_of (on_reply sc),
            log_call
              (send_message (m_chat m)
                 (cp "Unsupported link. Send Instagram or YouTube public link.")
                 false None) w))
  end.
Proof.
  destruct (extract_url (m_text m)) as [url|] eqn:E.
  - pose proof (extract_url_Some _ _ E) as Hx. split; [exact Hx|].
    destruct Hx as (t & pre & post & _ & _ & Hne%is_url_nonempty & _).
    cbv zeta. rewrite <- is_instagram_spec, <- is_youtube_spec. split_and!.
    + intros Hi msg Hf.
      pose proof (handle_links_supported sc m w url msg E) as Hh.
      rewrite Hi in Hh. rewrite (Hh eq_refl Hf).
      match goal with |- context [send_card ?a ?b ?c ?d ?e ?f ?g] =>
        destruct (same_ledger_send_card a b c d e f g) as [-> _] end.
      done.
    + intros Hi%not_true_is_false Hy msg Hf.
      pose proof (handle_links_supported sc m w url msg E) as Hh.
      rewrite Hi, Hy in Hh. rewrite (Hh eq_refl Hf).
      match goal with |- context [send_card ?a ?b ?c ?d ?e ?f ?g] =>
        destruct (same_ledger_send_card a b c d e f g) as [-> _] end.
      done.
    + intros Hi%not_true_is_false Hy%not_true_is_false.
      unfold handle_links. rewrite E. destruct url; [done|].
      rewrite Hi, Hy. apply external_unit.
  - split.
    + intros t Ht. rewrite Ht in E. by apply extract_url_None.
    + unfold handle_links. rewrite E. apply external_unit.
Qed.

Lemma link_classification_witness :
  requests_store
    (snd (@handle_links ascii_tables sample_links sample_message empty_world))
  = {[ sample_uid := sample_request ]} ∧
  requests_store
    (snd (@handle_links ascii_tables sample_links sample_instagram_message
            empty_world))
  = {[ sample_uid :=
         {| req_url := cp "https://www.instagram.com/reel/xyz987/";
            req_type := cp "instagram" |} ]}.
Proof.
  split.
  - pose proof (link_classification ascii_tables sample_links sample_message
                  empty_world) as Hc.
    change (extract_url (m_text sample_message))
      with (Some (cp "https://youtu.be/abc123")) in Hc.
    destruct Hc as (_ & _ & Hc & _).
    assert (¬ (occurs_in (cp "instagram.com") (cp "https://youtu.be/abc123")
               ∨ occurs_in (cp "instagr.am") (cp "https://youtu.be/abc123")))
      as Hno.
    { rewrite <- is_instagram_spec. vm_compute. discriminate. }
    assert (occurs_in (cp "youtube.com") (cp "https://youtu.be/abc123")
            ∨ occurs_in (cp "youtu.be") (cp "https://youtu.be/abc123"))
      as Hyes.
    { right. by exists (cp "https://"), (cp "/abc123"). }
    rewrite (Hc Hno Hyes 3%Z eq_refl).
    apply map_eq. intros k. vm_compute. reflexivity.
  - pose proof (link_classification ascii_tables sample_links
                  sample_instagram_message empty_world) as Hc.
    change (extract_url (m_text sample_instagram_message))
      with (Some (cp "https://www.instagram.com/reel/xyz987/")) in Hc.
    destruct Hc as (_ & Hc & _).
    assert (occurs_in (cp "instagram.com")
              (cp "https://www.instagram.com/reel/xyz987/")
            ∨ occurs_in (cp "instagr.am")
                (cp "https://www.instagram.com/reel/xyz987/")) as Hyes.
    { left. by exists (cp "https://www."), (cp "/reel/xyz987/"). }
    rewrite (Hc Hyes 3%Z eq_refl).
    apply map_eq. intros k. vm_compute. reflexivity.
Defined.

(** ** Metadata probe *)

(** C5.  The metadata probe never raises: it returns a value in every case,
    and "no metadata" when the extraction call raises.  The link handler then
    goes on with placeholder content: on a supported link whose probe raised,
    once the "Fetching" notice is sent, it sends the card as a text message
    (no photo), with ["Instagram post found."] for Instagram and the title
    ["YouTube Video"] with an empty duration for YouTube, and it ends
    normally when the transport takes the card. *)
Theorem probe_failure_degrades (U : Unicode) :
  (∀ sc url w,
     ∃ info, probe_info sc url w = (Ok info, log_call (ydl_probe url) w) ∧
             ∀ e, on_probe sc = inl e → info = None) ∧
  (∀ (sc : LinkScenario) (m : Message) (w : World) (url : str) (msg : Z)
     (e : exn),
     extract_url (m_text m) = Some url →
     is_instagram url || is_youtube url = true →
     on_fetching sc = inr msg →
     on_probe sc = inl e →
     let uid := take 8 (on_uuid4 sc) in
     let fetching :=
       if is_instagram url then fetching_instagram else fetching_youtube in
     let card :=
       if is_instagram url
       then send_message (m_chat m) instagram_found true
              (Some (instagram_markup uid))
       else send_message (m_chat m)
              (cp "*YouTube Video*" ++ nl ++ nl ++ nl
               ++ cp "Choose download type:")
              true (Some (youtube_markup uid)) in
     ∃ w',
       handle_links sc m w = (card_result sc, w') ∧
       (on_send_text sc = None → card_result sc = Ok tt) ∧
       log w' =
         log w
         ++ [send_message (m_chat m) fetching false None; ydl_probe url]
         ++ card_calls sc card (delete_message (m_chat m) msg)).
Proof.
  split.
  - intros sc url w. eexists. split; [apply probe_info_eq|].
    by intros e ->.
  - intros sc m w url msg e Hurl Hsup Hf Hp uid fetching card.
    pose proof (handle_links_supported sc m w url msg Hurl Hsup Hf) as Hh.
    cbv zeta in Hh. rewrite Hp in Hh. simpl thumb_of in Hh.
    rewrite Hh. clear Hh.
    match goal with |- context [send_card ?a ?b ?c None ?t ?k ?g] =>
      destruct (send_card_no_thumb a b c t k g) as (w' & -> & Hl) end.
    exists w'. split; [done|]. split.
    { unfold card_result. by intros ->. }
    rewrite Hl. subst card fetching uid. simpl. rewrite <- !app_assoc. simpl.
    by destruct (is_instagram url).
Qed.

Lemma probe_failure_degrades_witness :
  ∃ w',
    @handle_links ascii_tables sample_links sample_message empty_world
    = (Ok tt, w') ∧
    log w' =
      [send_message 42 fetching_youtube false None;
       ydl_probe (cp "https://youtu.be/abc123");
       send_message 42
         (cp "*YouTube Video*" ++ nl ++ nl ++ nl ++ cp "Choose download type:")
         true (Some (youtube_markup sample_uid));
       delete_message 42 3].
Proof.
  destruct (proj2 (probe_failure_degrades ascii_tables) sample_links
              sample_message empty_world (cp "https://youtu.be/abc123") 3%Z
              (Error (cp "HTTP Error 403")))
    as (w' & E & _ & Hl); try (vm_compute; reflexivity).
  exists w'. split; [exact E|exact Hl].
Defined.

(** * Further properties of the code *)

(** ** URL extraction *)

Lemma take_while_all p (s : str) :
  Forall (fun c => p c = true) s → take_while p s = s.
Proof.
  induction 1 as [|c r Hc _ IH]; simpl; [done|]. by rewrite Hc, IH.
Qed.

Lemma URL_RE_match_url u : is_url u → URL_RE_match u = Some u.
Proof.
  intros (scheme & body & Hsch & -> & Hne & Hbody).
  assert (take_while (fun c => negb (isspace c)) body = body) as Htw.
  { apply take_while_all. eapply Forall_impl; [exact Hbody|].
    simpl. by intros c ->. }
  unfold URL_RE_match.
  destruct Hsch as [-> | ->].
  - unfold URL_RE_scheme. rewrite startswith_app, drop_app_length, Htw.
    by destruct body.
  - replace (URL_RE_scheme (cp "https://") (cp "http://" ++ body))
      with (@None str) by done.
    unfold URL_RE_scheme. rewrite startswith_app, drop_app_length, Htw.
    by destruct body.
Qed.

(** X1.  Extracting from an extracted URL gives that URL back: the URL the
    filter of the link handler sees is the one the handler works with. *)
Theorem extract_url_idempotent (text : option str) (u : str) :
  extract_url text = Some u → extract_url (Some u) = Some u.
Proof.
  intros (t & pre & post & _ & _ & Hu & _)%extract_url_Some.
  pose proof (is_url_nonempty u Hu) as Hne.
  destruct u as [|c r]; [done|]. unfold extract_url.
  cbn [URL_RE_search]. by rewrite (URL_RE_match_url _ Hu).
Qed.

Lemma extract_url_idempotent_witness :
  extract_url (Some (cp "https://youtu.be/abc123"))
  = Some (cp "https://youtu.be/abc123").
Proof.
  apply (extract_url_idempotent
           (Some (cp "check this https://youtu.be/abc123 now"))).
  vm_compute. reflexivity.
Defined.

(** ** Callback payloads of the download buttons *)

Lemma partition_at_fresh sep (a b : str) :
  sep ∉ a → partition_at sep (a ++ sep :: b) = Some (a, b).
Proof.
  induction a as [|c a IH]; intros Hn; simpl.
  - by rewrite N.eqb_refl.
  - apply not_elem_of_cons in Hn as [Hc Ha].
    destruct (N.eqb_spec c sep) as [->|_]; [done|]. by rewrite IH.
Qed.

Lemma download_payload_split (lbl uid mode : str) :
  0x7C%N ∉ uid →
  split 0x7C%N 2 (callback_data (download_button lbl uid mode))
  = [cp "download"; uid; mode].
Proof.
  intros Hn. unfold download_button. cbn [callback_data].
  change (cp "download|" ++ uid ++ cp "|" ++ mode)
    with (cp "download" ++ 0x7C%N :: (uid ++ 0x7C%N :: mode)).
  cbn [split].
  rewrite partition_at_fresh
    by (apply (bool_decide_unpack _); vm_compute; exact I).
  by rewrite partition_at_fresh.
Qed.

(** X2.  The payload of a download button parses back to its identifier and
    mode, when the identifier has no ["|"] in it (the mode may have). *)
Theorem download_payload_round_trip (lbl uid mode : str) :
  0x7C%N ∉ uid →
  split 0x7C%N 2 (callback_data (download_button lbl uid mode))
  = [cp "download"; uid; mode] ∧
  download_filter {| call_id := []; chat_id := 0;
                     data := callback_data (download_button lbl uid mode) |}
  = true.
Proof.
  intros Hn. split; [by apply download_payload_split|done].
Qed.

Lemma download_payload_round_trip_witness :
  split 0x7C%N 2
    (callback_data (download_button (cp "Download") sample_uid (cp "audio")))
  = [cp "download"; sample_uid; cp "audio"].
Proof.
  apply (download_payload_round_trip (cp "Download") sample_uid (cp "audio")).
  apply (bool_decide_unpack _). vm_compute. exact I.
Defined.

(** ** Bounds on the presentation *)

(** X3.  The snippet of a caption never has more than 803 characters, and
    never more than the caption has, three dots apart. *)
Theorem caption_snippet_length (caption : str) :
  length (caption_snippet caption) ≤ 803 ∧
  length (caption_snippet caption) ≤ length caption + 3.
Proof.
  destruct (strip_decompose caption) as (l & r & Hc & _ & _).
  assert (length (strip caption) ≤ length caption) as Hle.
  { rewrite Hc at 2. rewrite !length_app. lia. }
  unfold caption_snippet.
  destruct (Nat.ltb_spec 800 (length (strip caption))) as [Hlt|Hge].
  - rewrite length_app, length_take.
    change (length (cp "...")) with 3. lia.
  - lia.
Qed.

Section HashtagBound.
Context `{Unicode}.

Lemma findall_from_length skip s :
  length (findall_from skip s) ≤ count_char 0x23%N s.
Proof.
  unfold count_char. revert skip.
  induction s as [|c r IH]; intros skip; [done|].
  rewrite filter_cons. destruct skip as [|k].
  - cbn [findall_from HASHTAG_RE_match].
    destruct (N.eqb_spec c 0x23) as [->|Hne].
    + rewrite decide_True by done.
      destruct (take_while is_word r) as [|x w]; cbn [length].
      * specialize (IH 0). lia.
      * apply le_n_S, IH.
    + rewrite decide_False by done. apply IH.
  - cbn [findall_from]. specialize (IH k). case_decide; cbn [length]; lia.
Qed.

Lemma dedup_loop_length tags seen :
  length (dedup_loop tags seen []) ≤ length tags.
Proof.
  apply sublist_length, dedup_loop_sublist.
Qed.

End HashtagBound.

(** X4.  There are never more hashtags in the output than hash signs in the
    text; in particular a text without a hash sign has no hashtags. *)
Theorem hashtags_bounded_by_hash_signs (U : Unicode) (text : list char) :
  length (hashtags_from_text text) ≤ count_char 0x23%N text.
Proof.
  rewrite hashtags_from_text_loop.
  etrans; [apply dedup_loop_length|]. apply findall_from_length.
Qed.

(** ** The size check in bytes *)

Lemma size_mb_le cfg f :
  Qle_bool (size_mb f) (inject_Z (MAX_FILESIZE_MB cfg)) = true
  ↔ (round53 (st_size f) ≤ MAX_FILESIZE_MB cfg * 1048576)%Z.
Proof.
  rewrite Qle_bool_iff. unfold Qle, size_mb. simpl. lia.
Qed.

(** X5.  The size check never raises and changes nothing; it answers True
    exactly when the file is missing or its size, rounded to a double as the
    float division rounds it, is more than MAX_FILESIZE_MB x 1048576 bytes.
    Below 2^53 bytes nothing is rounded: the answer is True exactly when the
    file has more bytes than that, so a file of exactly that many bytes
    passes. *)
Theorem file_too_big_in_bytes (cfg : Config) (path : Path) (w : World) :
  ∃ b, file_too_big cfg path w = (Ok b, w) ∧
       (b = true ↔
          match lookup_file path w with
          | None => True
          | Some f => (MAX_FILESIZE_MB cfg * 1048576 < round53 (st_size f))%Z
          end) ∧
       (∀ f, lookup_file path w = Some f → (0 ≤ st_size f < 2 ^ 53)%Z →
             (b = true ↔ (MAX_FILESIZE_MB cfg * 1048576 < st_size f)%Z)).
Proof.
  destruct (lookup_file path w) as [f|] eqn:Hf.
  - rewrite (file_too_big_Some _ _ _ _ Hf). eexists. split; [done|].
    pose proof (size_mb_le cfg f) as Hle.
    assert (negb (Qle_bool (size_mb f) (inject_Z (MAX_FILESIZE_MB cfg))) = true
            ↔ (MAX_FILESIZE_MB cfg * 1048576 < round53 (st_size f))%Z) as Hiff.
    { destruct (Qle_bool (size_mb f) (inject_Z (MAX_FILESIZE_MB cfg))); simpl.
      - split; [done|]. intros Hlt. apply proj1 in Hle.
        specialize (Hle eq_refl). lia.
      - split; [|done]. intros _.
        destruct (Z.lt_ge_cases (MAX_FILESIZE_MB cfg * 1048576)
                    (round53 (st_size f))) as [|Hge]; [done|].
        apply Hle in Hge. done. }
    split; [exact Hiff|].
    intros f' [= <-] Hsmall. by rewrite Hiff, round53_small.
  - rewrite (file_too_big_None _ _ _ Hf). eexists. by split_and!.
Qed.

(** ** The output path of a download *)

Lemma elem_of_insert_newest f l x :
  x ∈ insert_newest f l ↔ x = f ∨ x ∈ l.
Proof.
  induction l as [|g r IH]; simpl.
  - rewrite list_elem_of_singleton, elem_of_nil. tauto.
  - destruct (st_mtime g <=? st_mtime f)%Z.
    + by rewrite elem_of_cons.
    + rewrite !elem_of_cons, IH. tauto.
Qed.

Lemma elem_of_sorted_newest l x : x ∈ sorted_newest l ↔ x ∈ l.
Proof.
  induction l as [|f r IH]; simpl; [done|].
  rewrite elem_of_insert_newest, elem_of_cons, IH. tauto.
Qed.

Lemma insert_newest_first f l :
  newest_first l → newest_first (insert_newest f l).
Proof.
  destruct l as [|g r]; simpl.
  - intros _ x ->%list_elem_of_singleton. lia.
  - intros Hg. destruct (Z.leb_spec (st_mtime g) (st_mtime f)) as [Hle|Hlt].
    + intros x [->|Hx]%elem_of_cons; [lia|]. specialize (Hg x Hx). lia.
    + intros x [->|[->|Hx]%elem_of_insert_newest]%elem_of_cons.
      * lia.
      * lia.
      * apply Hg. by right.
Qed.

Lemma sorted_newest_first l : newest_first (sorted_newest l).
Proof.
  induction l as [|f r IH]; simpl; [done|]. by apply insert_newest_first.
Qed.

Lemma lookup_file_elem_of p w f :
  f ∈ files w → f_path f = p → is_Some (lookup_file p w).
Proof.
  unfold lookup_file. induction (files w) as [|g r IH]; simpl.
  - by intros ?%elem_of_nil.
  - intros [->|Hf]%elem_of_cons Hp.
    + rewrite bool_decide_eq_true_2 by done. eauto.
    + destruct (bool_decide (f_path g = p)); eauto.
Qed.

Lemma expected_path_world audio out w :
  snd (expected_path audio out w) = w.
Proof.
  unfold expected_path, with_suffix. destruct audio; [|done].
  by destruct (name (eo_filename out)).
Qed.

Lemma download_with_yt_eq sc url outdir audio w :
  download_with_yt sc url outdir audio w =
    match on_extract sc with
    | inl e => (Raise e, log_call (ydl_download url outdir audio) w)
    | inr out =>
        let w1 := set_files (fun fs => eo_written out ++ fs)
                    (log_call (ydl_download url outdir audio) w) in
        match fst (expected_path audio out w1) with
        | Raise e => (Raise e, w1)
        | Ok expected =>
            (Ok (if bool_decide (is_Some (lookup_file expected w1))
                 then expected
                 else match sorted_newest
                              (filter (fun f => parent (f_path f) = outdir)
                                 (files w1)) with
                      | f :: _ => f_path f
                      | [] => expected
                      end,
                 eo_info out), w1)
        end
    end.
Proof.
  unfold download_with_yt, expected_path, bind, external, modify, with_suffix,
    path_exists, glob, ret, raise.
  destruct (on_extract sc) as [e|out]; [done|]. cbv zeta.
  destruct audio.
  - destruct (name (eo_filename out)); [done|]. cbn [fst].
    case_bool_decide; [done|]. by destruct (sorted_newest _).
  - cbn [fst]. case_bool_decide; [done|]. by destruct (sorted_newest _).
Qed.

Lemma filter_nil_not_elem_of {A} (P : A → Prop) `{∀ x, Decision (P x)}
    (l : list A) x :
  filter P l = [] → x ∈ l → ¬ P x.
Proof.
  intros Hnil Hx HP.
  assert (x ∈ filter P l) as Hin by (by apply list_elem_of_filter).
  rewrite Hnil in Hin. by apply elem_of_nil in Hin.
Qed.

(** X6.  The path a download returns names an existing file, unless the
    scratch directory holds no file at all. *)
Theorem download_path_exists_unless_empty (sc : DownloadScenario)
    (url outdir : str) (audio : bool) (w w1 : World) (p : Path) (info : Info) :
  download_with_yt sc url outdir audio w = (Ok (p, info), w1) →
  is_Some (lookup_file p w1) ∨ ∀ f, f ∈ files w1 → parent (f_path f) ≠ outdir.
Proof.
  rewrite download_with_yt_eq.
  destruct (on_extract sc) as [e|out]; [done|]. cbv zeta.
  destruct (fst (expected_path audio out _)) as [expected|e]; [|done].
  intros [= <- _ <-]. case_bool_decide as Hex; [by left|].
  destruct (sorted_newest _) as [|f r] eqn:Hs.
  - right. intros f Hf.
    assert (filter (fun f => parent (f_path f) = outdir)
              (eo_written out ++ files w) = [])
      as Hnil.
    { destruct (filter _ _) as [|g l] eqn:Hfl; [done|].
      assert (g ∈ sorted_newest (g :: l)) as Hg
        by (apply elem_of_sorted_newest; left).
      rewrite Hs in Hg. by apply elem_of_nil in Hg. }
    by apply (filter_nil_not_elem_of _ _ _ Hnil).
  - left.
    assert (f ∈ sorted_newest
              (filter (fun f => parent (f_path f) = outdir)
                 (eo_written out ++ files w)))
      as Hf by (rewrite Hs; left).
    apply elem_of_sorted_newest, list_elem_of_filter in Hf as [_ Hf].
    by eapply lookup_file_elem_of.
Qed.

Lemma download_path_exists_unless_empty_witness :
  let w1 := set_files (fun fs => [sample_file "clip.mkv" 10] ++ fs)
              (log_call (ydl_download (cp "u") sample_tmpdir false) empty_world) in
  is_Some (lookup_file {| parent := sample_tmpdir; name := cp "clip.mkv" |} w1)
  ∨ ∀ f, f ∈ files w1 → parent (f_path f) ≠ sample_tmpdir.
Proof.
  apply (download_path_exists_unless_empty
           (sample_scenario "clip.webm" [sample_file "clip.mkv" 10] None)
           (cp "u") sample_tmpdir false empty_world _ _ sample_info).
  vm_compute. reflexivity.
Defined.

(** X7.  When the expected output file is missing, the download returns the
    most recently modified file of the scratch directory; it returns the
    expected (missing) path only when that directory holds no file. *)
Theorem download_fallback_newest (sc : DownloadScenario) (url outdir : str)
    (audio : bool) (w w1 : World) (p expected : Path) (info : Info)
    (out : EngineOutput) :
  download_with_yt sc url outdir audio w = (Ok (p, info), w1) →
  on_extract sc = inr out →
  fst (expected_path audio out w1) = Ok expected →
  lookup_file expected w1 = None →
  (p = expected ∧ ∀ f, f ∈ files w1 → parent (f_path f) ≠ outdir) ∨
  (∃ f, f ∈ files w1 ∧ parent (f_path f) = outdir ∧ p = f_path f ∧
        ∀ g, g ∈ files w1 → parent (f_path g) = outdir →
             (st_mtime g ≤ st_mtime f)%Z).
Proof.
  rewrite download_with_yt_eq. intros Hrun Hout. rewrite Hout in Hrun.
  cbv zeta in Hrun.
  destruct (fst (expected_path audio out _)) as [e0|e0] eqn:He; [|done].
  injection Hrun as Hp _ <-. rewrite He. intros [= <-] Hmiss.
  rewrite Hmiss in Hp. rewrite bool_decide_eq_false_2 in Hp
    by (by intros [? ?]).
  pose proof (sorted_newest_first
                (filter (fun f => parent (f_path f) = outdir)
                   (eo_written out ++ files w)))
    as Hfirst.
  destruct (sorted_newest _) as [|f r] eqn:Hs.
  - left. split; [done|]. intros f Hf.
    assert (filter (fun f => parent (f_path f) = outdir)
              (eo_written out ++ files w) = [])
      as Hnil.
    { destruct (filter _ _) as [|g l] eqn:Hfl; [done|].
      assert (g ∈ sorted_newest (g :: l)) as Hg
        by (apply elem_of_sorted_newest; left).
      rewrite Hs in Hg. by apply elem_of_nil in Hg. }
    by apply (filter_nil_not_elem_of _ _ _ Hnil).
  - right. exists f.
    assert (f ∈ sorted_newest
              (filter (fun f => parent (f_path f) = outdir)
                 (eo_written out ++ files w)))
      as Hf by (rewrite Hs; left).
    apply elem_of_sorted_newest, list_elem_of_filter in Hf as [Hd Hf].
    split_and!; [done..|].
    intros g Hg Hgd. apply Hfirst. rewrite <- Hs.
    apply elem_of_sorted_newest, list_elem_of_filter. done.
Qed.

Lemma download_fallback_newest_witness :
  let w1 := set_files (fun fs => [sample_file "clip.mkv" 10] ++ fs)
              (log_call (ydl_download (cp "u") sample_tmpdir false) empty_world) in
  let p := {| parent := sample_tmpdir; name := cp "clip.mkv" |} in
  let expected := {| parent := sample_tmpdir; name := cp "clip.webm" |} in
  (p = expected ∧ ∀ f, f ∈ files w1 → parent (f_path f) ≠ sample_tmpdir) ∨
  (∃ f, f ∈ files w1 ∧ parent (f_path f) = sample_tmpdir ∧ p = f_path f ∧
        ∀ g, g ∈ files w1 → parent (f_path g) = sample_tmpdir →
             (st_mtime g ≤ st_mtime f)%Z).
Proof.
  apply (download_fallback_newest
           (sample_scenario "clip.webm" [sample_file "clip.mkv" 10] None)
           (cp "u") sample_tmpdir false empty_world _ _ _ sample_info
           {| eo_info := sample_info;
              eo_filename := {| parent := sample_tmpdir; name := cp "clip.webm" |};
              eo_written := [sample_file "clip.mkv" 10] |});
    vm_compute; reflexivity.
Defined.

(** ** The whole callback handler *)

Section RunPreserves.
Context `{Unicode}.
Variable cfg : Config.
Variable R : World → World → Prop.
Hypothesis R_refl : ∀ w, R w w.
Hypothesis R_trans : ∀ w1 w2 w3, R w1 w2 → R w2 w3 → R w1 w3.
Hypothesis R_external : ∀ A c (o : exn + A), preserves R (external c o).

Lemma guarded_download_preserves sc call url mode tmpdir :
  preserves R (download_with_yt sc url tmpdir (bool_decide (mode = cp "audio"))) →
  preserves R
    (try_except
       (download_and_send cfg sc call url mode tmpdir)
       (fun e =>
          external (send_message (chat_id call) (download_failed_text e)
                      false None)
                   (unit_outcome (on_send_failed sc)))).
Proof.
  intros Hdl. apply (preserves_try_except _ R_trans); [|intros e; apply R_external].
  unfold download_and_send.
  apply (preserves_bind _ R_trans); [exact Hdl|]. intros [filepath info].
  apply (preserves_bind _ R_trans);
    [apply (preserves_file_too_big _ R_refl R_trans)|].
  intros [].
  - apply (preserves_bind _ R_trans); [apply (preserves_stat _ R_refl)|].
    intros f. apply R_external.
  - destruct (_ || _);
      (apply (preserves_bind _ R_trans);
         [apply (preserves_open_rb _ R_refl R_trans)|]);
      intros _; apply R_external.
Qed.

Hypothesis R_dirs : ∀ f, preserves R (modify (set_dirs f)).
Hypothesis R_files : ∀ f, preserves R (modify (set_files f)).

Lemma cb_download_run_preserves sc call uid mode req :
  preserves R (modify (set_store (delete uid))) →
  (∀ url tmpdir audio, preserves R (download_with_yt sc url tmpdir audio)) →
  preserves R (cb_download_run cfg sc call uid mode req).
Proof.
  intros Hdel Hdl. unfold cb_download_run.
  apply (preserves_bind _ R_trans); [apply R_external|]. intros notify.
  apply (preserves_bind _ R_trans).
  { unfold tempfile_mkdtemp.
    apply (preserves_bind _ R_trans); [apply R_external|]. intros d.
    apply (preserves_bind _ R_trans); [apply R_dirs|]. intros _.
    apply (preserves_ret _ R_refl). }
  intros tmpdir. apply (preserves_try_finally _ R_trans).
  - apply guarded_download_preserves, Hdl.
  - unfold cleanup.
    apply (preserves_bind _ R_trans).
    { apply (preserves_try_pass _ R_refl R_trans), R_external. }
    intros _. apply (preserves_bind _ R_trans).
    { apply (preserves_try_pass _ R_refl R_trans). unfold shutil_rmtree.
      apply (preserves_bind _ R_trans); [apply (preserves_get_world _ R_refl)|].
      intros w0. case_decide; [|apply (preserves_raise _ R_refl)].
      apply (preserves_bind _ R_trans); [apply R_external|]. intros _.
      apply (preserves_bind _ R_trans); [apply R_dirs|]. intros _.
      apply R_files. }
    intros _. unfold try_pass_KeyError, del_request.
    apply (preserves_try_except _ R_trans).
    + apply (preserves_bind _ R_trans); [apply (preserves_get_world _ R_refl)|].
      intros w0. destruct (requests_store w0 !! uid);
        [exact Hdel|apply (preserves_raise _ R_refl)].
    + intros []; first [apply (preserves_ret _ R_refl)
                       |apply (preserves_raise _ R_refl)].
Qed.

End RunPreserves.

Lemma only_removes_refl uid w : only_removes uid w w.
Proof. intros k. by left. Qed.

Lemma only_removes_trans uid w1 w2 w3 :
  only_removes uid w1 w2 → only_removes uid w2 w3 → only_removes uid w1 w3.
Proof.
  intros H12 H23 k. destruct (H23 k) as [E23|[-> E23]]; [|by right].
  destruct (H12 k) as [E12|[-> E12]]; [left; congruence|].
  right. split; [done|congruence].
Qed.

Lemma only_removes_same_store uid w w' :
  requests_store w' = requests_store w → only_removes uid w w'.
Proof. intros E k. left. by rewrite E. Qed.

Lemma only_removes_delete uid :
  preserves (only_removes uid) (modify (set_store (delete uid))).
Proof.
  intros w k. simpl. destruct (decide (k = uid)) as [->|Hne].
  - right. split; [done|]. apply lookup_delete_eq.
  - left. by apply lookup_delete_ne.
Qed.

Section StoreInvariant.
Context `{Unicode}.
Variable cfg : Config.

Lemma only_removes_cb_download_run sc call uid mode req :
  preserves (only_removes uid) (cb_download_run cfg sc call uid mode req).
Proof.
  apply cb_download_run_preserves.
  - apply only_removes_refl.
  - apply only_removes_trans.
  - intros A c o w. apply only_removes_same_store. unfold external.
    by destruct o.
  - intros f w. by apply only_removes_same_store.
  - intros f w. by apply only_removes_same_store.
  - apply only_removes_delete.
  - intros url tmpdir audio w. apply only_removes_same_store.
    destruct (download_with_yt sc url tmpdir audio w) as [r w1] eqn:E.
    by apply download_with_yt_log in E as [[? _] _].
Qed.

End StoreInvariant.

(** X8.  Whatever the collaborators answer, the callback handler adds no
    entry to the request store and changes none: an identifier resolves after
    the handler as it did before, except that the identifier carried by the
    payload may have been removed. *)
Theorem cb_download_only_removes_own_entry (U : Unicode) (cfg : Config)
    (sc : DownloadScenario) (call : CallbackQuery) (w : World) (k : str) :
  let w' := snd (cb_download cfg sc call w) in
  requests_store w' !! k = requests_store w !! k
  ∨ (requests_store w' !! k = None
     ∧ ∃ v mode, split 0x7C%N 2 (data call) = [v; k; mode]).
Proof.
  intros w'. subst w'. unfold cb_download, bind.
  destruct (decide (length (split 0x7C%N 2 (data call)) = 3)) as [Hl|Hl].
  - destruct (split 0x7C%N 2 (data call)) as [|v [|uid [|mode [|d l]]]] eqn:Hs;
      try done.
    destruct (requests_store w !! uid) as [req|] eqn:Hu.
    + rewrite (cb_download_lookup_resolved _ _ _ _ _ _ _ Hs Hu).
      destruct (on_answer sc); [by left|].
      destruct (only_removes_cb_download_run cfg sc call uid mode req
                  (log_call (answer_callback_query (call_id call)
                               starting_download) w) k) as [E|[-> E]].
      * by left.
      * right. eauto.
    + rewrite (cb_download_lookup_expired _ _ _ _ _ _ Hs Hu).
      left. by destruct (on_answer sc).
  - rewrite cb_download_lookup_invalid by done.
    left. by destruct (on_answer sc).
Qed.

Section OutcomeFacts.
Context `{Unicode}.
Variable cfg : Config.

Lemma cleanup_exact sc call notify tmpdir uid w :
  tmpdir ∈ dirs w →
  ∃ w', cleanup sc call notify tmpdir uid w = (Ok tt, w') ∧
        requests_store w' = delete uid (requests_store w) ∧
        log w' = log w ++ [delete_message (chat_id call) notify; rmtree tmpdir] ∧
        dirs w' = (if on_rmtree sc is None then dirs w ∖ {[tmpdir]} else dirs w) ∧
        files w' = (if on_rmtree sc is None
                    then filter (fun f => parent (f_path f) ≠ tmpdir) (files w)
                    else files w).
Proof.
  intros Hd. unfold cleanup.
  rewrite (bind_Ok _ _ _ _ _ (try_pass_external _ _ _)).
  assert (∃ w1,
    try_pass (shutil_rmtree (on_rmtree sc) tmpdir)
      (log_call (delete_message (chat_id call) notify) w) = (Ok tt, w1) ∧
    requests_store w1 = requests_store w ∧
    log w1 = log w ++ [delete_message (chat_id call) notify; rmtree tmpdir] ∧
    dirs w1 = (if on_rmtree sc is None then dirs w ∖ {[tmpdir]} else dirs w) ∧
    files w1 = (if on_rmtree sc is None
                then filter (fun f => parent (f_path f) ≠ tmpdir) (files w)
                else files w)) as (w1 & E1 & Hs1 & Hl1 & Hd1 & Hf1).
  { unfold try_pass, try_except, shutil_rmtree, bind, get_world.
    cbn [dirs log_call].
    destruct (decide (tmpdir ∈ dirs w)) as [?|?]; [|done].
    rewrite external_unit. destruct (on_rmtree sc) as [e0|]; simpl.
    - eexists. split; [reflexivity|]. simpl. by rewrite <- app_assoc.
    - eexists. split; [reflexivity|]. simpl. by rewrite <- app_assoc. }
  rewrite (bind_Ok _ _ _ _ _ E1).
  destruct (try_pass_del_request uid w1) as (w2 & E2 & Hs2 & Hd2 & Hf2 & Hl2).
  exists w2. split; [done|]. split_and!; congruence.
Qed.

Lemma cb_download_outcome sc call w v uid mode req nid tmpdir r1 w1 :
  split 0x7C%N 2 (data call) = [v; uid; mode] →
  requests_store w !! uid = Some req →
  on_answer sc = None →
  on_notify sc = inr nid →
  on_mkdtemp sc = inr tmpdir →
  download_and_send cfg sc call (req_url req) mode tmpdir
    (download_start call mode tmpdir w) = (r1, w1) →
  ∃ w',
    cb_download cfg sc call w = (handler_result sc r1, w') ∧
    requests_store w' = delete uid (requests_store w) ∧
    log w' = log w1 ++ failure_report call r1
             ++ [delete_message (chat_id call) nid; rmtree tmpdir] ∧
    dirs w' = (if on_rmtree sc is None then dirs w1 ∖ {[tmpdir]} else dirs w1) ∧
    files w' = (if on_rmtree sc is None
                then filter (fun f => parent (f_path f) ≠ tmpdir) (files w1)
                else files w1).
Proof.
  intros Hs Hu Ha Hn Hm Hbody. unfold cb_download.
  rewrite (bind_Ok _ _ _ (Some (uid, mode, req))
             (log_call (answer_callback_query (call_id call) starting_download) w));
    [|by rewrite (cb_download_lookup_resolved _ _ _ _ _ _ _ Hs Hu), Ha].
  rewrite (cb_download_run_start cfg _ _ _ _ _ _ _ _ Hn Hm).
  fold (download_start call mode tmpdir w).
  pose proof (same_ledger_download_and_send cfg sc call (req_url req) mode tmpdir
                (download_start call mode tmpdir w)) as [Hst Hd].
  rewrite Hbody in Hst, Hd. simpl in Hst, Hd.
  unfold try_finally, try_except. rewrite Hbody.
  destruct r1 as [[]|e]; simpl.
  - destruct (cleanup_exact sc call nid tmpdir uid w1)
      as (w2 & -> & Hs2 & Hl & Hd2 & Hf2).
    { rewrite Hd. apply elem_of_union_l. by apply elem_of_singleton. }
    exists w2. split; [done|]. split_and!; [|done..]. by rewrite Hs2, Hst.
  - rewrite external_unit.
    destruct (cleanup_exact sc call nid tmpdir uid
                (log_call (send_message (chat_id call) (download_failed_text e)
                             false None) w1))
      as (w2 & -> & Hs2 & Hl & Hd2 & Hf2).
    { simpl. rewrite Hd. apply elem_of_union_l. by apply elem_of_singleton. }
    exists w2. split; [by destruct (on_send_failed sc)|].
    split_and!; [|..|done|done].
    + by rewrite Hs2; simpl; rewrite Hst.
    + rewrite Hl. simpl. by rewrite <- app_assoc.
Qed.

End OutcomeFacts.

(** X9.  When the extraction engine raises, the handler sends one "Download
    failed" message carrying the engine's error text, sends no media, removes
    the notice, the scratch directory and the ledger entry, and ends as that
    send ends. *)
Theorem engine_failure_reported (U : Unicode) (cfg : Config)
    (sc : DownloadScenario) (call : CallbackQuery) (w : World)
    (v uid mode tmpdir : str) (req : Request) (nid : Z) (e : exn) :
  split 0x7C%N 2 (data call) = [v; uid; mode] →
  requests_store w !! uid = Some req →
  on_answer sc = None →
  on_notify sc = inr nid →
  on_mkdtemp sc = inr tmpdir →
  on_extract sc = inl e →
  ∃ w',
    cb_download cfg sc call w = (result_of (on_send_failed sc), w') ∧
    requests_store w' = delete uid (requests_store w) ∧
    log w' =
      log w
      ++ [answer_callback_query (call_id call) starting_download;
          send_message (chat_id call) (downloading_text mode) false None;
          mkdtemp (cp "savemedia_");
          ydl_download (req_url req) tmpdir (bool_decide (mode = cp "audio"));
          send_message (chat_id call)
            ([0x274C%N] ++ cp " Download failed: " ++ exn_str e) false None;
          delete_message (chat_id call) nid;
          rmtree tmpdir].
Proof.
  intros Hs Hu Ha Hn Hm He.
  assert (download_and_send cfg sc call (req_url req) mode tmpdir
            (download_start call mode tmpdir w)
          = (Raise e,
             log_call (ydl_download (req_url req) tmpdir
                         (bool_decide (mode = cp "audio")))
               (download_start call mode tmpdir w))) as Hbody.
  { unfold download_and_send, download_with_yt, bind, external. by rewrite He. }
  destruct (cb_download_outcome cfg sc call w v uid mode req nid tmpdir _ _
              Hs Hu Ha Hn Hm Hbody) as (w' & E & Hst & Hl & _).
  exists w'. split_and!; [done..|].
  rewrite Hl. simpl. by rewrite <- !app_assoc.
Qed.

Lemma engine_failure_reported_witness :
  ∃ w',
    @cb_download ascii_tables (load_config None) sample_engine_fails sample_call
      sample_world = (Ok tt, w') ∧
    requests_store w' = delete sample_uid (requests_store sample_world) ∧
    log w' =
      sample_trace
        [send_message 42
           ([0x274C%N] ++ cp " Download failed: HTTP Error 403: Forbidden")
           false None].
Proof.
  apply (engine_failure_reported ascii_tables (load_config None)
           sample_engine_fails sample_call sample_world (cp "download")
           sample_uid (cp "video") sample_tmpdir sample_request 7
           (Error (cp "HTTP Error 403: Forbidden")));
    vm_compute; reflexivity.
Defined.

(** X10.  Failures of the download stay inside the handler: once the
    "Starting download" answer and the notice are accepted and the scratch
    directory is made, the handler ends normally whenever the transport
    accepts the "Download failed" message, whatever the engine, the file
    system and the other sends do. *)
Theorem download_failures_contained (U : Unicode) (cfg : Config)
    (sc : DownloadScenario) (call : CallbackQuery) (w : World)
    (v uid mode tmpdir : str) (req : Request) (nid : Z) :
  split 0x7C%N 2 (data call) = [v; uid; mode] →
  requests_store w !! uid = Some req →
  on_answer sc = None →
  on_notify sc = inr nid →
  on_mkdtemp sc = inr tmpdir →
  on_send_failed sc = None →
  fst (cb_download cfg sc call w) = Ok tt.
Proof.
  intros Hs Hu Ha Hn Hm Hf.
  destruct (download_and_send cfg sc call (req_url req) mode tmpdir
              (download_start call mode tmpdir w)) as [r1 w1] eqn:Hbody.
  destruct (cb_download_outcome cfg sc call w v uid mode req nid tmpdir _ _
              Hs Hu Ha Hn Hm Hbody) as (w' & -> & _).
  simpl. destruct r1; simpl; [done|]. by rewrite Hf.
Qed.

Lemma download_failures_contained_witness :
  fst (@cb_download ascii_tables (load_config None) sample_all_sends_fail
         sample_call sample_world) = Ok tt.
Proof.
  apply (download_failures_contained ascii_tables (load_config None)
           sample_all_sends_fail sample_call sample_world (cp "download")
           sample_uid (cp "video") sample_tmpdir sample_request 7);
    vm_compute; reflexivity.
Defined.

Lemma grows_in_refl d w : grows_in d w w.
Proof. split; [done|]. by exists []. Qed.

Lemma grows_in_trans d w1 w2 w3 :
  grows_in d w1 w2 → grows_in d w2 w3 → grows_in d w1 w3.
Proof.
  intros [Hd1 (a1 & Hf1 & Ha1)] [Hd2 (a2 & Hf2 & Ha2)].
  split; [congruence|]. exists (a2 ++ a1).
  split; [by rewrite Hf2, Hf1, app_assoc|by apply Forall_app].
Qed.

Lemma grows_in_external d {A} c (o : exn + A) :
  preserves (grows_in d) (external c o).
Proof.
  intros w. unfold external. destruct o; (split; [done|]); by exists [].
Qed.

Lemma grows_in_download_with_yt sc url d audio :
  (∀ out, on_extract sc = inr out →
          Forall (fun f => parent (f_path f) = d) (eo_written out)) →
  preserves (grows_in d) (download_with_yt sc url d audio).
Proof.
  intros Hw w. rewrite download_with_yt_eq.
  destruct (on_extract sc) as [e|out] eqn:E.
  - split; [done|]. by exists [].
  - specialize (Hw out eq_refl). cbv zeta.
    destruct (fst (expected_path audio out _));
      (split; [done|]); by exists (eo_written out).
Qed.

Lemma filter_all {A} (P : A → Prop) `{∀ x, Decision (P x)} (l : list A) :
  Forall P l → filter P l = l.
Proof.
  induction 1 as [|x l Hx _ IH]; [done|].
  by rewrite filter_cons_True, IH.
Qed.

Lemma filter_none {A} (P : A → Prop) `{∀ x, Decision (P x)} (l : list A) :
  Forall (fun x => ¬ P x) l → filter P l = [].
Proof.
  induction 1 as [|x l Hx _ IH]; [done|].
  by rewrite filter_cons_False.
Qed.

Section Neutrality.
Context `{Unicode}.
Variable cfg : Config.

Lemma grows_in_download_and_send sc call url mode d :
  (∀ out, on_extract sc = inr out →
          Forall (fun f => parent (f_path f) = d) (eo_written out)) →
  preserves (grows_in d) (download_and_send cfg sc call url mode d).
Proof.
  intros Hw.
  pose proof (grows_in_refl d) as Hr. pose proof (grows_in_trans d) as Ht.
  unfold download_and_send.
  apply (preserves_bind _ Ht); [by apply grows_in_download_with_yt|].
  intros [filepath info].
  apply (preserves_bind _ Ht); [apply (preserves_file_too_big _ Hr Ht)|].
  intros [].
  - apply (preserves_bind _ Ht); [apply (preserves_stat _ Hr)|].
    intros f. apply grows_in_external.
  - destruct (_ || _);
      (apply (preserves_bind _ Ht); [apply (preserves_open_rb _ Hr Ht)|]);
      intros _; apply grows_in_external.
Qed.

End Neutrality.

(** X11.  A download leaves nothing behind: when the scratch directory is
    fresh, the engine writes only into it and its removal does not raise,
    the handler ends with the directories and the files it started with,
    whether the download succeeded or not. *)
Theorem download_leaves_no_files (U : Unicode) (cfg : Config)
    (sc : DownloadScenario) (call : CallbackQuery) (w : World)
    (v uid mode tmpdir : str) (req : Request) (nid : Z) :
  split 0x7C%N 2 (data call) = [v; uid; mode] →
  requests_store w !! uid = Some req →
  on_answer sc = None →
  on_notify sc = inr nid →
  on_mkdtemp sc = inr tmpdir →
  on_rmtree sc = None →
  tmpdir ∉ dirs w →
  Forall (fun f => parent (f_path f) ≠ tmpdir) (files w) →
  (∀ out, on_extract sc = inr out →
          Forall (fun f => parent (f_path f) = tmpdir) (eo_written out)) →
  dirs (snd (cb_download cfg sc call w)) = dirs w ∧
  files (snd (cb_download cfg sc call w)) = files w.
Proof.
  intros Hs Hu Ha Hn Hm Hrm Hfresh Hold Hw.
  destruct (download_and_send cfg sc call (req_url req) mode tmpdir
              (download_start call mode tmpdir w)) as [r1 w1] eqn:Hbody.
  pose proof (grows_in_download_and_send cfg sc call (req_url req) mode tmpdir
                Hw (download_start call mode tmpdir w)) as Hg.
  rewrite Hbody in Hg. destruct Hg as [Hd (added & Hf & Hadded)].
  simpl in Hd, Hf.
  destruct (cb_download_outcome cfg sc call w v uid mode req nid tmpdir _ _
              Hs Hu Ha Hn Hm Hbody) as (w' & -> & _ & _ & Hd' & Hf').
  rewrite Hrm in Hd', Hf'. simpl. split.
  - rewrite Hd', Hd. apply set_eq. intros x.
    rewrite elem_of_difference, elem_of_union, elem_of_singleton.
    split; [by intros [[->|?] ?]|].
    intros Hx. split; [by right|]. by intros ->.
  - rewrite Hf', Hf, filter_app.
    rewrite (filter_none _ added), (filter_all _ (files w)); [done|done|].
    eapply Forall_impl; [exact Hadded|]. simpl. by intros f -> ?.
Qed.

Lemma download_leaves_no_files_witness :
  dirs (snd (@cb_download ascii_tables (load_config None) sample_ok sample_call
               sample_world)) = dirs sample_world ∧
  files (snd (@cb_download ascii_tables (load_config None) sample_ok sample_call
                sample_world)) = files sample_world.
Proof.
  apply (download_leaves_no_files ascii_tables (load_config None) sample_ok
           sample_call sample_world (cp "download") sample_uid (cp "video")
           sample_tmpdir sample_request 7);
    try (vm_compute; reflexivity).
  - apply (bool_decide_unpack _). vm_compute. exact I.
  - constructor.
  - intros out [= <-]. repeat constructor.
Defined.

(** ** Repeated and interleaved callbacks *)

Section SequentialFacts.
Context `{Unicode}.
Variable cfg : Config.

Lemma cb_download_expired sc call w v uid mode :
  split 0x7C%N 2 (data call) = [v; uid; mode] →
  requests_store w !! uid = None →
  cb_download cfg sc call w =
    (result_of (on_answer sc),
     log_call (answer_callback_query (call_id call) request_expired) w).
Proof.
  intros Hs Hu. unfold cb_download, bind.
  rewrite (cb_download_lookup_expired _ _ _ _ _ _ Hs Hu).
  by destruct (on_answer sc).
Qed.

Lemma handle_all_expired jobs w v uid mode :
  Forall (fun job => split 0x7C%N 2 (data (snd job)) = [v; uid; mode]) jobs →
  requests_store w !! uid = None →
  requests_store (handle_all cfg jobs w) = requests_store w ∧
  dirs (handle_all cfg jobs w) = dirs w ∧
  files (handle_all cfg jobs w) = files w ∧
  log (handle_all cfg jobs w) =
    log w ++ map (fun job => answer_callback_query (call_id (snd job))
                               request_expired) jobs.
Proof.
  intros Hjobs. revert w.
  induction Hjobs as [|[sc call] jobs Hs _ IH]; intros w Hu.
  - simpl. by rewrite app_nil_r.
  - change (handle_all cfg ((sc, call) :: jobs) w)
      with (handle_all cfg jobs (snd (cb_download cfg sc call w))).
    cbn [snd] in Hs.
    rewrite (cb_download_expired sc call w v uid mode Hs Hu). cbn [snd].
    destruct (IH (log_call (answer_callback_query (call_id call)
                              request_expired) w) Hu)
      as (-> & -> & -> & ->).
    split_and!; [done..|]. simpl. by rewrite <- app_assoc.
Qed.

End SequentialFacts.

(** X12.  Handled one after the other, callbacks with the same payload
    download at most once: after a first callback has run through its
    cleanup, every later one, however many, is answered "Request expired"
    and nothing else is called or changed. *)
Theorem repeated_callbacks_expire (U : Unicode) (cfg : Config)
    (sc : DownloadScenario) (call : CallbackQuery)
    (jobs : list (DownloadScenario * CallbackQuery)) (w : World)
    (v uid mode tmpdir : str) (req : Request) (nid : Z) :
  split 0x7C%N 2 (data call) = [v; uid; mode] →
  requests_store w !! uid = Some req →
  on_answer sc = None →
  on_notify sc = inr nid →
  on_mkdtemp sc = inr tmpdir →
  Forall (fun job => data (snd job) = data call) jobs →
  let w1 := snd (cb_download cfg sc call w) in
  let w2 := handle_all cfg jobs w1 in
  requests_store w2 = requests_store w1 ∧
  dirs w2 = dirs w1 ∧
  files w2 = files w1 ∧
  log w2 =
    log w1 ++ map (fun job => answer_callback_query (call_id (snd job))
                                request_expired) jobs.
Proof.
  intros Hs Hu Ha Hn Hm Hjobs w1 w2. subst w1 w2.
  apply (handle_all_expired cfg jobs _ v uid mode).
  - eapply Forall_impl; [exact Hjobs|]. simpl. by intros job ->.
  - destruct (download_and_send cfg sc call (req_url req) mode tmpdir
                (download_start call mode tmpdir w)) as [r1 w1] eqn:Hbody.
    destruct (cb_download_outcome cfg sc call w v uid mode req nid tmpdir _ _
                Hs Hu Ha Hn Hm Hbody) as (w' & E & Hst & _).
    rewrite E. cbn [snd]. rewrite Hst. apply lookup_delete_eq.
Qed.

Lemma repeated_callbacks_expire_witness :
  let w1 := snd (@cb_download ascii_tables (load_config None) sample_ok
                   sample_call sample_world) in
  let jobs := [(sample_ok2, sample_call2); (sample_ok, sample_call)] in
  let w2 := @handle_all ascii_tables (load_config None) jobs w1 in
  requests_store w2 = requests_store w1 ∧
  dirs w2 = dirs w1 ∧
  files w2 = files w1 ∧
  log w2 =
    log w1 ++ [answer_callback_query (cp "cb2") request_expired;
               answer_callback_query (cp "cb1") request_expired].
Proof.
  apply (repeated_callbacks_expire ascii_tables (load_config None) sample_ok
           sample_call [(sample_ok2, sample_call2); (sample_ok, sample_call)]
           sample_world (cp "download") sample_uid (cp "video") sample_tmpdir
           sample_request 7);
    try (vm_compute; reflexivity).
  repeat constructor.
Defined.

(** The two turns of a handler thread make up the handler: a thread
    that takes both its turns in a row leaves the world that [cb_download]
    leaves. *)
Lemma thread_turns_compose (U : Unicode) (cfg : Config)
    (sc : DownloadScenario) (call : CallbackQuery) (w : World) :
  run_schedule cfg [0; 0] [Queued sc call] w
  = ([Finished], snd (cb_download cfg sc call w)).
Proof.
  cbn [run_schedule lookup list_lookup thread_step].
  unfold cb_download, bind.
  destruct (cb_download_lookup sc call w) as [[[[[uid mode] req]|]|e] w1];
    reflexivity.
Qed.

(** ** From the link to the callback *)

Section EndToEnd.
Context `{Unicode}.

Lemma send_card_offers sc m msg thumb text kb w :
  ∃ c rest, log (snd (send_card sc m msg thumb text kb w)) = log w ++ c :: rest
            ∧ markup_of c = Some kb.
Proof.
  unfold send_card, bind, try_except, try_pass, external, unit_outcome, ret.
  destruct thumb as [t|], (on_send_photo sc), (on_send_text sc),
    (on_send_again sc), (on_delete_fetching sc); simpl;
    eexists _, _; (split; [rewrite <- ?app_assoc; reflexivity|done]).
Qed.

End EndToEnd.

(** X13.  Every button the link handler offers leads back to the link: for a
    supported link, the handler sends a card carrying the download keyboard,
    and a callback with the payload of any of its buttons resolves, in the
    world the handler leaves, the stored URL and platform with the mode
    "video" or "audio" (the identifier having no ["|"] in it). *)
Theorem offered_buttons_resolve (U : Unicode) (sc : LinkScenario)
    (m : Message) (w : World) (url : str) (msg : Z)
    (sc2 : DownloadScenario) (call : CallbackQuery) (b : Button) :
  extract_url (m_text m) = Some url →
  is_instagram url || is_youtube url = true →
  on_fetching sc = inr msg →
  0x7C%N ∉ take 8 (on_uuid4 sc) →
  b ∈ (if is_instagram url then instagram_markup (take 8 (on_uuid4 sc))
       else youtube_markup (take 8 (on_uuid4 sc))) →
  data call = callback_data b →
  on_answer sc2 = None →
  let uid := take 8 (on_uuid4 sc) in
  let w' := snd (handle_links sc m w) in
  (∃ c, c ∈ log w' ∧
        markup_of c = Some (if is_instagram url then instagram_markup uid
                            else youtube_markup uid)) ∧
  ∃ mode,
    (mode = cp "video" ∨ mode = cp "audio") ∧
    cb_download_lookup sc2 call w' =
      (Ok (Some (uid, mode,
                 {| req_url := url;
                    req_type := if is_instagram url then cp "instagram"
                                else cp "youtube" |})),
       log_call (answer_callback_query (call_id call) starting_download) w').
Proof.
  intros Hurl Hsup Hf Hbar Hb Hdata Ha uid w'. subst w'.
  pose proof (handle_links_supported sc m w url msg Hurl Hsup Hf) as Hh.
  cbv zeta in Hh. rewrite Hh. clear Hh.
  match goal with |- context [send_card ?a ?b ?c ?d ?e ?f ?g] =>
    destruct (same_ledger_send_card a b c d e f g) as [Hst _];
    destruct (send_card_offers a b c d e f g) as (c0 & rest & Hl & Hk);
    set (w' := snd (send_card a b c d e f g)) in *
  end.
  split.
  { exists c0. split; [|by destruct (is_instagram url)].
    rewrite Hl. apply elem_of_app. right. left. }
  assert (∃ lbl mode, b = download_button lbl uid mode
                      ∧ (mode = cp "video" ∨ mode = cp "audio"))
    as (lbl & mode & -> & Hmode).
  { destruct (is_instagram url).
    - apply list_elem_of_singleton in Hb as ->. eauto.
    - apply elem_of_cons in Hb as [->|Hb]; [eauto|].
      apply list_elem_of_singleton in Hb as ->. eauto. }
  exists mode. split; [done|].
  rewrite (cb_download_lookup_resolved sc2 call w' (cp "download") uid mode
             {| req_url := url;
                req_type := if is_instagram url then cp "instagram"
                            else cp "youtube" |}).
  - by rewrite Ha.
  - rewrite Hdata. by apply download_payload_split.
  - rewrite Hst. simpl. apply lookup_insert_eq.
Qed.

Lemma offered_buttons_resolve_witness :
  let w' := snd (@handle_links ascii_tables sample_links sample_message
                   empty_world) in
  let call := {| call_id := cp "cb9";
                 data := cp "download|ab12cd34|audio"; chat_id := 42 |} in
  (∃ c, c ∈ log w' ∧ markup_of c = Some (youtube_markup sample_uid)) ∧
  ∃ mode,
    (mode = cp "video" ∨ mode = cp "audio") ∧
    cb_download_lookup sample_ok call w' =
      (Ok (Some (sample_uid, mode, sample_request)),
       log_call (answer_callback_query (cp "cb9") starting_download) w').
Proof.
  apply (offered_buttons_resolve ascii_tables sample_links sample_message
           empty_world (cp "https://youtu.be/abc123") 3 sample_ok
           {| call_id := cp "cb9"; data := cp "download|ab12cd34|audio";
              chat_id := 42 |}
           (download_button ([0x1F3A7%N] ++ cp " Download Audio") sample_uid
              (cp "audio")));
    try (vm_compute; reflexivity).
  - apply (bool_decide_unpack _). vm_compute. exact I.
  - right. left.
Defined.

(** ** Sending the card *)

(** X14.  When the card has a thumbnail and sending it as a photo raises,
    the same text with the same keyboard is sent as a plain message; the
    "Fetching" notice is then deleted unless that second send raises too, and
    the handler ends as the second send ends. *)
Theorem photo_failure_falls_back_to_text (U : Unicode) (sc : LinkScenario)
    (m : Message) (w : World) (url thumb : str) (msg : Z) (info : Info)
    (e : exn) :
  extract_url (m_text m) = Some url →
  is_instagram url || is_youtube url = true →
  on_fetching sc = inr msg →
  on_probe sc = inr (Some info) →
  thumbnail info = Some thumb →
  thumb ≠ [] →
  on_send_photo sc = Some e →
  let uid := take 8 (on_uuid4 sc) in
  let text := if is_instagram url then instagram_text (Some info)
              else youtube_text (Some info) in
  let kb := if is_instagram url then instagram_markup uid
            else youtube_markup uid in
  ∃ w',
    handle_links sc m w = (result_of (on_send_again sc), w') ∧
    log w' =
      log w
      ++ [send_message (m_chat m)
            (if is_instagram url then fetching_instagram else fetching_youtube)
            false None;
          ydl_probe url;
          send_photo (m_chat m) thumb text true (Some kb);
          send_message (m_chat m) text true (Some kb)]
      ++ (if on_send_again sc is None then [delete_message (m_chat m) msg]
          else []).
Proof.
  intros Hurl Hsup Hf Hp Ht Hne He uid text kb.
  pose proof (handle_links_supported sc m w url msg Hurl Hsup Hf) as Hh.
  cbv zeta in Hh. rewrite Hp in Hh. rewrite Hh. clear Hh.
  assert (thumb_of (Some info) = Some thumb) as ->.
  { unfold thumb_of. rewrite Ht. by destruct thumb. }
  unfold send_card, bind, try_except, try_pass, external, unit_outcome, ret.
  rewrite He. subst text kb uid.
  destruct (on_send_again sc) as [e2|], (on_delete_fetching sc); simpl;
    (eexists; split; [done|]); simpl; rewrite <- ?app_assoc; simpl;
    by destruct (is_instagram url).
Qed.

Lemma photo_failure_falls_back_to_text_witness :
  ∃ w',
    @handle_links ascii_tables sample_photo_fails sample_message empty_world
    = (Ok tt, w') ∧
    log w' =
      [send_message 42 fetching_youtube false None;
       ydl_probe (cp "https://youtu.be/abc123");
       send_photo 42 (cp "https://i.ytimg.com/vi/abc123/hq.jpg")
         (cp "*clip*" ++ nl ++ cp "2m5s" ++ nl ++ nl ++ cp "Choose download type:")
         true (Some (youtube_markup sample_uid));
       send_message 42
         (cp "*clip*" ++ nl ++ cp "2m5s" ++ nl ++ nl ++ cp "Choose download type:")
         true (Some (youtube_markup sample_uid));
       delete_message 42 3].
Proof.
  apply (photo_failure_falls_back_to_text ascii_tables sample_photo_fails
           sample_message empty_world (cp "https://youtu.be/abc123")
           (cp "https://i.ytimg.com/vi/abc123/hq.jpg") 3 sample_info_thumb
           (Error (cp "Bad Request: wrong file identifier")));
    try (vm_compute; reflexivity).
  discriminate.
Defined.

(** ** Handlers under their filters *)

Section FilterFacts.
Context `{Unicode}.

Lemma no_valid_link_reply_send_card sc m msg thumb text kb :
  preserves
    (logged (fun c => c ≠ send_message (m_chat m) valid_link_text false None))
    (send_card sc m msg thumb text kb).
Proof.
  set (Q := fun c => c ≠ send_message (m_chat m) valid_link_text false None).
  pose proof (logged_refl Q) as Hr. pose proof (logged_trans Q) as Ht.
  unfold send_card. apply (preserves_bind _ Ht).
  - apply (preserves_try_except _ Ht).
    + destruct thumb; by apply logged_external.
    + intros _. by apply logged_external.
  - intros _. apply (preserves_try_pass _ Hr Ht). by apply logged_external.
Qed.

End FilterFacts.

(** X15.  Under its filter the link handler never replies "Send a valid
    link.": a message the filter lets through has an extracted URL, so the
    handler's first branch is never taken. *)
Theorem valid_link_reply_unreachable (U : Unicode) (sc : LinkScenario)
    (m : Message) (w : World) :
  links_filter m = true →
  logged (fun c => c ≠ send_message (m_chat m) valid_link_text false None)
    w (snd (handle_links sc m w)).
Proof.
  unfold links_filter. destruct (extract_url (m_text m)) as [url|] eqn:E;
    [intros _|done].
  set (Q := fun c => c ≠ send_message (m_chat m) valid_link_text false None).
  pose proof (logged_refl Q) as Hr. pose proof (logged_trans Q) as Ht.
  destruct (extract_url_Some _ _ E)
    as (t & pre & post & _ & _ & Hne%is_url_nonempty & _).
  revert w. change (preserves (logged Q) (handle_links sc m)).
  unfold handle_links. rewrite E. destruct url as [|c r]; [done|].
  assert (∀ txt, txt ≠ valid_link_text →
                 Q (send_message (m_chat m) txt false None)) as Hq
    by (intros txt Hx [= ?]; done).
  destruct (is_instagram (c :: r)); [|destruct (is_youtube (c :: r))].
  - apply (preserves_bind _ Ht); [by apply logged_external, Hq|]. intros msg.
    apply (preserves_bind _ Ht).
    { unfold probe_info. apply (preserves_try_except _ Ht);
        [by apply logged_external|intros _; apply (preserves_ret _ Hr)]. }
    intros info. apply (preserves_bind _ Ht);
      [by apply logged_modify_silent|].
    intros _. apply no_valid_link_reply_send_card.
  - apply (preserves_bind _ Ht); [by apply logged_external, Hq|]. intros msg.
    apply (preserves_bind _ Ht).
    { unfold probe_info. apply (preserves_try_except _ Ht);
        [by apply logged_external|intros _; apply (preserves_ret _ Hr)]. }
    intros info. apply (preserves_bind _ Ht);
      [by apply logged_modify_silent|].
    intros _. apply no_valid_link_reply_send_card.
  - by apply logged_external, Hq.
Qed.

Lemma valid_link_reply_unreachable_witness :
  logged (fun c => c ≠ send_message 42 valid_link_text false None)
    empty_world
    (snd (@handle_links ascii_tables sample_links sample_message empty_world)).
Proof.
  apply (valid_link_reply_unreachable ascii_tables sample_links sample_message
           empty_world).
  vm_compute. reflexivity.
Defined.

(** ** The language callback *)

Lemma lang_texts_lookup code :
  default lang_english (lang_texts !! code)
  = if decide (code = cp "hi") then lang_hindi else lang_english.
Proof.
  unfold lang_texts. case_decide as Hhi.
  - subst. rewrite lookup_insert_ne by done. by rewrite lookup_insert_eq.
  - destruct (decide (code = cp "en")) as [->|Hen].
    + by rewrite lookup_insert_eq.
    + rewrite !lookup_insert_ne by done. by rewrite lookup_empty.
Qed.

(** X16.  Under its filter the language callback never fails on the payload:
    for callback data ["lang_" + code] it answers the callback and then sends
    the Hindi confirmation when the code is ["hi"] and the English one for
    every other code, known or not. *)
Theorem cb_lang_under_filter (sc : LangScenario) (call : CallbackQuery)
    (w : World) :
  lang_filter call = true →
  ∃ code,
    data call = cp "lang_" ++ code ∧
    let answer := answer_callback_query (call_id call) [] in
    let reply :=
      send_message (chat_id call)
        (if decide (code = cp "hi") then lang_hindi else lang_english)
        false None in
    cb_lang sc call w =
      match on_lang_answer sc with
      | Some e => (Raise e, log_call answer w)
      | None => (result_of (on_lang_send sc), log_call reply (log_call answer w))
      end.
Proof.
  unfold lang_filter. intros Hp%startswith_true.
  exists (drop (length (cp "lang_")) (data call)). split; [done|].
  unfold cb_lang. rewrite Hp at 1.
  set (code := drop (length (cp "lang_")) (data call)).
  change (split 0x5F%N 1 (cp "lang_" ++ code)) with [cp "lang"; code].
  unfold index, bind. cbn [lookup list_lookup ret].
  rewrite external_unit. destruct (on_lang_answer sc); cbn [result_of]; [done|].
  by rewrite external_unit, lang_texts_lookup.
Qed.

Lemma cb_lang_under_filter_witness :
  ∃ code,
    cp "lang_fr" = cp "lang_" ++ code ∧
    cb_lang {| on_lang_answer := None; on_lang_send := None |}
      {| call_id := cp "cb3"; data := cp "lang_fr"; chat_id := 42 |} empty_world
    = (Ok tt,
       log_call
         (send_message 42
            (if decide (code = cp "hi") then lang_hindi else lang_english)
            false None)
         (log_call (answer_callback_query (cp "cb3") []) empty_world)).
Proof.
  apply (cb_lang_under_filter {| on_lang_answer := None; on_lang_send := None |}
           {| call_id := cp "cb3"; data := cp "lang_fr"; chat_id := 42 |}
           empty_world).
  vm_compute. reflexivity.
Defined.

(** ** Which handler takes which button *)

Lemma startswith_lang_download (d : str) :
  startswith (cp "lang_") d = true → startswith (cp "download|") d = false.
Proof.
  intros Hp%startswith_true. rewrite Hp. reflexivity.
Qed.

(** X17.  The two callback filters never accept the same payload.  The
    language buttons of /start go to the language callback and the download
    buttons of the link handler to the download callback, whereas the payload
    of the "Select Language" button of the fallback reply is accepted by
    neither callback handler. *)
Theorem callback_routing (call : CallbackQuery) :
  ¬ (lang_filter call = true ∧ download_filter call = true) ∧
  (∀ link, data call ∈ payloads (start_keyboard link) →
           lang_filter call = true ∧ download_filter call = false) ∧
  (∀ uid, data call ∈ (callback_data <$> instagram_markup uid)
          ∨ data call ∈ (callback_data <$> youtube_markup uid) →
          download_filter call = true ∧ lang_filter call = false) ∧
  (data call ∈ payloads fallback_keyboard →
   lang_filter call = false ∧ download_filter call = false).
Proof.
  unfold lang_filter, download_filter. split_and!.
  - intros [Hl Hd]. apply startswith_lang_download in Hl. congruence.
  - intros link Hin.
    assert (data call = cp "lang_en" ∨ data call = cp "lang_hi") as [-> | ->];
      [|done..].
    destruct link; simpl in Hin;
      repeat (apply elem_of_cons in Hin as [Hin|Hin]; [by auto|]);
      by apply elem_of_nil in Hin.
  - intros uid [Hin|Hin]; simpl in Hin;
      repeat (apply elem_of_cons in Hin as [->|Hin]; [done|]);
      by apply elem_of_nil in Hin.
  - intros Hin. simpl in Hin.
    repeat (apply elem_of_cons in Hin as [->|Hin]; [done|]).
    by apply elem_of_nil in Hin.
Qed.

Lemma callback_routing_witness :
  lang_filter {| call_id := cp "cb4"; data := cp "select_lang"; chat_id := 42 |}
  = false ∧
  download_filter
    {| call_id := cp "cb4"; data := cp "select_lang"; chat_id := 42 |} = false.
Proof.
  apply (callback_routing
           {| call_id := cp "cb4"; data := cp "select_lang"; chat_id := 42 |}).
  left.
Defined.
